(** * exogui: the game launcher and the command-mapping start-up step

    A shallow embedding of [src/back/game/GameLauncher.ts] (namespace
    [GameLauncher]) and of the command-mapping part of the back end's
    [initialize], followed by the properties of the launch engine; then the
    lifecycle relay ([doStuffs], [logProcessOutput]), the back end's [log],
    [broadcast], [exit] and playlist callback, and the request handlers that
    call the launcher, with their properties.

    Conventions of the embedding.
    - JavaScript strings are [string]; the [String.prototype] methods the
      launcher calls ([endsWith], [substring], [replace] with a string
      pattern) are written out in [JsString].
    - [process.platform], Node's [path.join] and the helpers imported from
      [@shared/Util] and [@shared/mappings/CommandMapping] are the fields of
      an explicit environment [Env].
    - Effects are threaded through a [World]: the chronological list of
      effects the control flow performed, the effects queued for a later
      turn of the event loop, and the number of processes spawned so far.
    - A promise is represented by the way it settles ([Promise]); a
      suspension point ([await]) is recorded in the trace. *)

From Stdlib Require Import Strings.String Strings.Ascii Lists.List Bool.Bool
  Arith.Arith ZArith.ZArith Lia.
Import ListNotations.
Local Open Scope list_scope.
Local Open Scope string_scope.

(* ================================================================== *)
(** ** JavaScript string methods *)

Module JsString.

(** [s.substring(start, end)] for [start <= end]. *)
Definition jsSubstring (s : string) (startIdx endIdx : nat) : string :=
  substring startIdx (endIdx - startIdx) s.

(** [s.endsWith(suffix)]. *)
Definition endsWith (s suffix : string) : bool :=
  (String.length suffix <=? String.length s)%nat &&
  (substring (String.length s - String.length suffix)
     (String.length suffix) s =? suffix).

(** [s.slice(n)]: the string without its first [n] characters. *)
Fixpoint drop (n : nat) (s : string) : string :=
  match n, s with
  | O, _ => s
  | S _, EmptyString => EmptyString
  | S n', String _ s' => drop n' s'
  end.

(** [s.replace(pattern, replacement)] with a string [pattern] and a
    [replacement] free of [$]: the first occurrence of [pattern], scanning
    from the left, is replaced; [s] is returned as it is when [pattern]
    does not occur.  The empty pattern occurs at index 0. *)
Fixpoint replace (s pattern replacement : string) : string :=
  if prefix pattern s then replacement ++ drop (String.length pattern) s
  else match s with
       | EmptyString => EmptyString
       | String c s' => String c (replace s' pattern replacement)
       end.

(** [s.replace(/x/g, y)] for single characters. *)
Fixpoint replaceAllChar (x y : ascii) (s : string) : string :=
  match s with
  | EmptyString => EmptyString
  | String c s' =>
      String (if Ascii.eqb c x then y else c) (replaceAllChar x y s')
  end.

End JsString.

(* ================================================================== *)
(** ** Node's [path.posix.join] *)

Module PosixPath.

Definition sep : ascii := "/"%char.

(** The segments of a path between separators. *)
Fixpoint segments (s : string) : list string :=
  match s with
  | EmptyString => [EmptyString]
  | String c r =>
      if Ascii.eqb c sep then EmptyString :: segments r
      else match segments r with
           | h :: t => String c h :: t
           | [] => [String c EmptyString]
           end
  end.

(** One step of [normalizeString]: [stack] holds the kept segments, the
    last one first. *)
Definition normStep (allowAboveRoot : bool) (stack : list string)
    (seg : string) : list string :=
  if (seg =? "") || (seg =? ".") then stack
  else if seg =? ".." then
    match stack with
    | top :: rest =>
        if top =? ".." then (if allowAboveRoot then seg :: stack else stack)
        else rest
    | [] => if allowAboveRoot then [seg] else []
    end
  else seg :: stack.

Definition joinSegments (segs : list string) : string :=
  String.concat "/" segs.

Definition isAbsolute (p : string) : bool := prefix "/" p.

(** [path.posix.normalize]. *)
Definition normalize (p : string) : string :=
  if p =? "" then "."
  else
    let isAbs := isAbsolute p in
    let trailing := JsString.endsWith p "/" in
    let body :=
      joinSegments (rev (fold_left (normStep (negb isAbs)) (segments p) []))
    in
    if body =? "" then
      (if isAbs then "/" else if trailing then "./" else ".")
    else
      let body := if trailing then body ++ "/" else body in
      if isAbs then "/" ++ body else body.

(** [path.posix.join(a, b)]: empty arguments are skipped. *)
Definition join (a b : string) : string :=
  if a =? "" then (if b =? "" then "." else normalize b)
  else if b =? "" then normalize a
  else normalize (a ++ "/" ++ b).

(** A one-character segment other than the separator and the dot. *)
Definition plain (c : ascii) : Prop :=
  Ascii.eqb c sep = false /\ Ascii.eqb c "."%char = false.

End PosixPath.

(* ================================================================== *)
(** ** Data model *)

(** [process.platform] is a string: ["win32"], ["linux"], ["darwin"],
    ["freebsd"], ... *)
Definition Platform : Type := string.

(** A JavaScript value thrown or used as a rejection reason. *)
Inductive JsValue : Type :=
| JsUndefined
| JsNull
| JsStr (s : string)
| JsError (name message : string).

(** [if (v)]. *)
Definition truthy (v : JsValue) : bool :=
  match v with
  | JsUndefined | JsNull => false
  | JsStr s => negb (s =? "")
  | JsError _ _ => true
  end.

(** [v.toString()] ([Error.prototype.toString] for errors). *)
Definition toString (v : JsValue) : string :=
  match v with
  | JsUndefined => "undefined"
  | JsNull => "null"
  | JsStr s => s
  | JsError name message =>
      if name =? "" then message
      else if message =? "" then name
      else name ++ ": " ++ message
  end.

(** [ExecMapping] of [@shared/interfaces]. *)
Module ExecMapping.
Record t : Type := mk {
  win32 : string;
  linux : option string;
  darwin : option string
}.
End ExecMapping.

(** [ICommandMapping] and [IAppCommandsMappingData]
    ([shared/mappings/interfaces]). *)
Module ICommandMapping.
Record t : Type := mk {
  extensions : list string;
  command : string;
  includeFilename : bool;
  includeArgs : bool;
  setCwdToFileDir : option bool
}.
End ICommandMapping.

Module IAppCommandsMappingData.
Record t : Type := mk {
  defaultMapping : ICommandMapping.t;
  commandsMapping : list ICommandMapping.t
}.
End IAppCommandsMappingData.

Definition EmptyCommandMapping : ICommandMapping.t :=
  {| ICommandMapping.command := "";
     ICommandMapping.extensions := [];
     ICommandMapping.includeArgs := true;
     ICommandMapping.includeFilename := true;
     ICommandMapping.setCwdToFileDir := None |}.

(** [Command]: what [createCommand] returns. *)
Module Command.
Record t : Type := mk { command : string; cwd : string }.
End Command.

(** The fields of [IGameInfo] the launcher reads. *)
Module IGameInfo.
Record t : Type := mk {
  title : string;
  applicationPath : string;
  launchCommand : string;
  placeholder : bool
}.
End IGameInfo.

Module IAdditionalApplicationInfo.
Record t : Type := mk {
  applicationPath : string;
  launchCommand : string;
  autoRunBefore : bool;
  waitForExit : bool
}.
End IAdditionalApplicationInfo.

(** The options object handed to [openDialog]. *)
Module MessageBoxOptions.
Record t : Type := mk {
  type : string;
  title : string;
  message : string;
  buttons : list string
}.
End MessageBoxOptions.

(** What a child process does first after [exec] returned it: it exits
    (with any code), it emits ["error"] (the OS refused to create it), or it
    emits neither. *)
Inductive ProcFate : Type :=
| FirstExit
| FirstError (e : JsValue)
| NoEvent.

Module ChildProcess.
Record t : Type := mk {
  pid : option nat;
  killed : bool;
  fate : ProcFate
}.
End ChildProcess.

(** How a promise settles; [Pending] is a promise that never settles. *)
Inductive Promise : Type :=
| Fulfilled
| Rejected (reason : JsValue)
| Pending.

(** Completion of a synchronous call. *)
Inductive Completion (A : Type) : Type :=
| Normal (a : A)
| Throw (e : JsValue).
Arguments Normal {A} a.
Arguments Throw {A} e.

(** The entries the launcher writes with [log(logSource, ...)]; the fields
    are the values interpolated into the template string. *)
Inductive LogContent : Type :=
| LaunchCommandMsg (pid : option nat) (appPath appArgs : string)
    (command : Command.t)
| LaunchGameFailedMsg (title : string) (e : JsValue)
| LaunchGameMsg (title : string) (pid : option nat)
    (applicationPath launchCommand : string) (command : Command.t)
| LaunchGameSetupMsg (title : string) (pid : option nat)
    (applicationPath launchCommand : string) (command : Command.t).

Inductive Event : Type :=
| Exec (command cwd : string) (proc : ChildProcess.t)
| LogProcessOutput (proc : ChildProcess.t)
| Log (source : string) (content : LogContent)
| OpenDialog (options : MessageBoxOptions.t)
| OpenExternal (target : string) (activate : bool)
| Await (p : Promise).

Record World : Type := mkWorld {
  events : list Event;
  later : list Event;
  spawned : nat
}.

(** An injected [openExternal]: how the promise it returns settles. *)
Definition OpenExternalFunc : Type := string -> bool -> Promise.

(** The ambient platform, Node's [path.join], the helpers of the
    repository that [GameLauncher.ts] imports but whose sources are not at
    hand, and the operating system's answer to an [exec] when [n] processes
    have been created: the process that [exec] returns, or the error that
    [exec] throws synchronously (Node reports a spawn failure through the
    process's [error] event only for [EACCES], [EAGAIN], [EMFILE], [ENFILE]
    and [ENOENT], and throws the others, such as [ENOTDIR] or [E2BIG]). *)
Record Env : Type := mkEnv {
  platform : Platform;
  path_join : string -> string -> string;
  fixSlashes : string -> string;
  createCommand :
    string -> string -> IAppCommandsMappingData.t -> Completion Command.t;
  spawnResult : nat -> string -> string -> Completion ChildProcess.t
}.

(** Modelled from the spec: [getFilename] of [@shared/Util] is not among
    the sources; the filename component of a path is the part after the last
    separator, of either slash style. *)
Definition isSeparator (c : ascii) : bool :=
  Ascii.eqb c "/"%char || Ascii.eqb c "\"%char.

Fixpoint afterLastSeparator (rest candidate : string) : string :=
  match rest with
  | EmptyString => candidate
  | String c r =>
      if isSeparator c then afterLastSeparator r r
      else afterLastSeparator r candidate
  end.

Definition getFilename (filePath : string) : string :=
  afterLastSeparator filePath filePath.

(** Modelled from the spec: [fixSlashes] of [@shared/Util] is not among the
    sources; on a non-Windows host it turns every backslash into the native
    separator. *)
Definition fixSlashesPosix (str : string) : string :=
  JsString.replaceAllChar "\"%char "/"%char str.

(** [LaunchAddAppOpts] and [LaunchGameOpts].  A call of the injected
    [openDialog] is the event [OpenDialog]; the launcher never looks at what
    it returns, so the options carry no field for it. *)
Module LaunchAddAppOpts.
Record t : Type := mk {
  fpPath : string;
  execMappings : list ExecMapping.t;
  mappings : IAppCommandsMappingData.t;
  openExternal : OpenExternalFunc;
  addApp : IAdditionalApplicationInfo.t;
  native : bool
}.
End LaunchAddAppOpts.

Module LaunchGameOpts.
Record t : Type := mk {
  fpPath : string;
  execMappings : list ExecMapping.t;
  mappings : IAppCommandsMappingData.t;
  openExternal : OpenExternalFunc;
  game : IGameInfo.t;
  addApps : option (list IAdditionalApplicationInfo.t);
  native : bool
}.
End LaunchGameOpts.

Definition newline : string := String (Ascii.ascii_of_nat 10) EmptyString.
Definition dquote : string := String (Ascii.ascii_of_nat 34) EmptyString.

(* ================================================================== *)
(** ** The launcher *)

Module GameLauncher.
Section WithEnv.

Context (env : Env).

Definition logSource : string := "Game Launcher".

Definition emit (e : Event) (w : World) : World :=
  {| events := (events w ++ [e])%list;
     later := later w;
     spawned := spawned w |}.

(** An effect performed by a callback that runs in a later turn. *)
Definition defer (e : Event) (w : World) : World :=
  {| events := events w;
     later := (later w ++ [e])%list;
     spawned := spawned w |}.

(** [child_process.exec(command, { cwd })]: a process is created and
    returned, or [exec] throws and no process exists. *)
Definition exec (command cwd : string) (w : World)
    : Completion ChildProcess.t * World :=
  match spawnResult env (spawned w) command cwd with
  | Normal proc =>
      (Normal proc,
       {| events := (events w ++ [Exec command cwd proc])%list;
          later := later w;
          spawned := S (spawned w) |})
  | Throw e => (Throw e, w)
  end.

Definition log (source : string) (content : LogContent) (w : World)
    : World :=
  emit (Log source content) w.

(** [logProcessOutput]: the listeners are attached; what they log later
    depends on the process alone. *)
Definition logProcessOutput (proc : ChildProcess.t) (w : World) : World :=
  emit (LogProcessOutput proc) w.

Definition handleSpecialApplicationPath
    (applicationPath launchCommand fpPath : string)
    (openExternal : OpenExternalFunc) (w : World) : bool * World :=
  if applicationPath =? ":message:" then
    (true,
     emit (OpenDialog
             {| MessageBoxOptions.type := "info";
                MessageBoxOptions.title := "About This Game";
                MessageBoxOptions.message := launchCommand;
                MessageBoxOptions.buttons := ["Ok"] |}) w)
  else if applicationPath =? ":extras:" then
    let folderPath :=
      fixSlashes env
        (path_join env fpPath (PosixPath.join "Extras" launchCommand)) in
    let w := emit (OpenExternal folderPath true) w in
    let w :=
      match openExternal folderPath true with
      | Rejected error =>
          if truthy error then
            defer (OpenDialog
                     {| MessageBoxOptions.type := "error";
                        MessageBoxOptions.title := "Failed to Open Extras";
                        MessageBoxOptions.message :=
                          toString error ++ newline ++ "Path: "
                            ++ folderPath;
                        MessageBoxOptions.buttons := ["Ok"] |}) w
          else w
      | _ => w
      end in
    (true, w)
  else (false, w).

(** The promise [launchCommand] builds around the process. *)
Definition exitPromise (proc : ChildProcess.t) : Promise :=
  if ChildProcess.killed proc then Fulfilled
  else match ChildProcess.fate proc with
       | FirstExit => Fulfilled
       | FirstError error => Rejected error
       | NoEvent => Pending
       end.

Definition launchCommand (appPath appArgs : string)
    (mappings : IAppCommandsMappingData.t) (w : World)
    : Completion Promise * World :=
  match createCommand env appPath appArgs mappings with
  | Throw e => (Throw e, w)
  | Normal command =>
      match exec (Command.command command) (Command.cwd command) w with
      | (Throw e, w) => (Throw e, w)
      | (Normal proc, w) =>
          let w := logProcessOutput proc w in
          let w :=
            log logSource
              (LaunchCommandMsg (ChildProcess.pid proc) appPath appArgs
                 command) w in
          (Normal (exitPromise proc), w)
      end
  end.

(** The [for] loop of [resolveApplicationPath] over [execMappings]. *)
Fixpoint scanExecMappings (execMappings : list ExecMapping.t)
    (filePath : string) : string :=
  match execMappings with
  | [] => filePath
  | mapping :: rest =>
      if ExecMapping.win32 mapping =? filePath then
        if platform env =? "linux" then
          match ExecMapping.linux mapping with
          | Some l => if l =? "" then ExecMapping.win32 mapping else l
          | None => ExecMapping.win32 mapping
          end
        else if platform env =? "darwin" then
          match ExecMapping.darwin mapping with
          | Some d => if d =? "" then ExecMapping.win32 mapping else d
          | None => ExecMapping.win32 mapping
          end
        else filePath
      else scanExecMappings rest filePath
  end.

Definition resolveApplicationPath (relativePath fpPath : string)
    (execMappings : list ExecMapping.t) (native : bool) : string :=
  let filePath := relativePath in
  let filePath :=
    if negb (platform env =? "win32") && JsString.endsWith filePath ".bat"
    then JsString.jsSubstring filePath 0 (String.length filePath - 4)
           ++ ".command"
    else filePath in
  let filePath :=
    if negb (platform env =? "win32") && native
    then scanExecMappings execMappings filePath
    else filePath in
  fixSlashes env (path_join env fpPath filePath).

(** What an [async] function's promise does with the completion of its
    body when the body ends in [return <promise>]. *)
Definition async (c : Completion Promise) : Promise :=
  match c with
  | Normal p => p
  | Throw e => Rejected e
  end.

Definition launchAdditionalApplication (opts : LaunchAddAppOpts.t)
    (w : World) : Promise * World :=
  let addApp := LaunchAddAppOpts.addApp opts in
  let (handled, w) :=
    handleSpecialApplicationPath
      (IAdditionalApplicationInfo.applicationPath addApp)
      (IAdditionalApplicationInfo.launchCommand addApp)
      (LaunchAddAppOpts.fpPath opts)
      (LaunchAddAppOpts.openExternal opts) w in
  if negb handled then
    let appPath :=
      resolveApplicationPath
        (IAdditionalApplicationInfo.applicationPath addApp)
        (LaunchAddAppOpts.fpPath opts)
        (LaunchAddAppOpts.execMappings opts)
        (LaunchAddAppOpts.native opts) in
    let (c, w) :=
      launchCommand appPath
        (IAdditionalApplicationInfo.launchCommand addApp)
        (LaunchAddAppOpts.mappings opts) w in
    (async c, w)
  else (Fulfilled, w).

(** [{ ...addAppOpts, addApp }]. *)
Definition addAppOpts (opts : LaunchGameOpts.t)
    (addApp : IAdditionalApplicationInfo.t) : LaunchAddAppOpts.t :=
  {| LaunchAddAppOpts.fpPath := LaunchGameOpts.fpPath opts;
     LaunchAddAppOpts.native := LaunchGameOpts.native opts;
     LaunchAddAppOpts.execMappings := LaunchGameOpts.execMappings opts;
     LaunchAddAppOpts.mappings := LaunchGameOpts.mappings opts;
     LaunchAddAppOpts.openExternal := LaunchGameOpts.openExternal opts;
     LaunchAddAppOpts.addApp := addApp |}.

(** The loop of [launchGame] over [opts.addApps].  [None]: the loop ran
    to its end.  [Some p]: an [await] did not resume normally, and [p] is
    what becomes of [launchGame]'s own promise (rejected with the awaited
    reason, or suspended for ever). *)
Fixpoint runAutoRunBefore (opts : LaunchGameOpts.t)
    (addApps : list IAdditionalApplicationInfo.t) (w : World)
    : option Promise * World :=
  match addApps with
  | [] => (None, w)
  | addApp :: rest =>
      if IAdditionalApplicationInfo.autoRunBefore addApp then
        let (promise, w) :=
          launchAdditionalApplication (addAppOpts opts addApp) w in
        if IAdditionalApplicationInfo.waitForExit addApp then
          let w := emit (Await promise) w in
          match promise with
          | Fulfilled => runAutoRunBefore opts rest w
          | _ => (Some promise, w)
          end
        else runAutoRunBefore opts rest w
      else runAutoRunBefore opts rest w
  end.

(** The part of [launchGame] after the loop: resolve, build, spawn.  Only
    [createCommand] stands inside the [try]; what [exec] throws leaves the
    [async] function and rejects its promise. *)
Definition launchMain (opts : LaunchGameOpts.t) (w : World)
    : Promise * World :=
  let game := LaunchGameOpts.game opts in
  let gamePath :=
    resolveApplicationPath (IGameInfo.applicationPath game)
      (LaunchGameOpts.fpPath opts) (LaunchGameOpts.execMappings opts)
      (LaunchGameOpts.native opts) in
  match createCommand env gamePath (IGameInfo.launchCommand game)
          (LaunchGameOpts.mappings opts) with
  | Throw e =>
      (Fulfilled,
       log logSource (LaunchGameFailedMsg (IGameInfo.title game) e) w)
  | Normal command =>
      match exec (Command.command command) (Command.cwd command) w with
      | (Throw e, w) => (Rejected e, w)
      | (Normal proc, w) =>
          let w := logProcessOutput proc w in
          let w :=
            log logSource
              (LaunchGameMsg (IGameInfo.title game) (ChildProcess.pid proc)
                 (IGameInfo.applicationPath game)
                 (IGameInfo.launchCommand game) command) w in
          (Fulfilled, w)
      end
  end.

Definition launchGame (opts : LaunchGameOpts.t) (w : World)
    : Promise * World :=
  if IGameInfo.placeholder (LaunchGameOpts.game opts) then (Fulfilled, w)
  else
    let (stopped, w) :=
      match LaunchGameOpts.addApps opts with
      | Some addApps => runAutoRunBefore opts addApps w
      | None => (None, w)
      end in
    match stopped with
    | Some p => (p, w)
    | None => launchMain opts w
    end.

Definition launchGameSetup (opts : LaunchGameOpts.t) (w : World)
    : Promise * World :=
  let game := LaunchGameOpts.game opts in
  let setupPath :=
    JsString.replace (IGameInfo.applicationPath game)
      (getFilename (IGameInfo.applicationPath game)) "install.command" in
  let gamePath :=
    resolveApplicationPath setupPath (LaunchGameOpts.fpPath opts)
      (LaunchGameOpts.execMappings opts) (LaunchGameOpts.native opts) in
  match createCommand env gamePath (IGameInfo.launchCommand game)
          (LaunchGameOpts.mappings opts) with
  | Throw e => (Rejected e, w)
  | Normal command =>
      match exec (Command.command command) (Command.cwd command) w with
      | (Throw e, w) => (Rejected e, w)
      | (Normal proc, w) =>
          let w := logProcessOutput proc w in
          let w :=
            log logSource
              (LaunchGameSetupMsg (IGameInfo.title game)
                 (ChildProcess.pid proc) (IGameInfo.applicationPath game)
                 (IGameInfo.launchCommand game) command) w in
          (Fulfilled, w)
      end
  end.

End WithEnv.
End GameLauncher.

(* ================================================================== *)
(** ** Back-end start-up: loading the command mappings *)

Module Back.

Inductive ConsoleLevel : Type := ConsoleLog | ConsoleInfo | ConsoleError.

(** [BackInitArgs]: the parsed start-up message. *)
Record BackInitArgs : Type := mkInitArgs {
  arg_secret : string;
  arg_configFolder : string;
  arg_exePath : string;
  arg_basePath : string
}.

Section WithFiles.

(** Preferences and configuration data are opaque here. *)
Context {Preferences Config : Type}.

(** The fields of [BackState] that [initialize] touches up to and
    including the command mappings, and the console. *)
Record BackState : Type := mkState {
  isInitialized : bool;
  secret : option string;
  configFolder : option string;
  localeCode : option string;
  exePath : option string;
  basePath : option string;
  preferences : option Preferences;
  config : option Config;
  commandMappings : IAppCommandsMappingData.t;
  console : list (ConsoleLevel * string)
}.

(** The module-level [state] object. *)
Definition state : BackState :=
  {| isInitialized := false;
     secret := None;
     configFolder := None;
     localeCode := None;
     exePath := None;
     basePath := None;
     preferences := None;
     config := None;
     commandMappings :=
       {| IAppCommandsMappingData.defaultMapping := EmptyCommandMapping;
          IAppCommandsMappingData.commandsMapping := [] |};
     console := [] |}.

(** The host: platform, [path.join], [JSON.parse] of the start-up
    message, the two [readOrCreateFile]s, [readJsonFile] on the mappings
    path, and everything [initialize] does after the mappings are loaded
    (from the second [ConfigFile.readOrCreateFile] to [send]). *)
Context (platform : Platform)
        (path_join : string -> string -> string)
        (parseInitArgs : string -> Completion BackInitArgs)
        (readPreferences : string -> Completion Preferences)
        (readConfig : string -> Completion Config)
        (readJsonFile : string -> Completion IAppCommandsMappingData.t)
        (restOfStartup : BackState -> Completion unit * BackState).

Definition preferencesFilename : string := "preferences.json".
Definition configFilename : string := "config.json".
Definition commandMappingsFilename : string :=
  "mappings." ++ platform ++ ".json".

Definition console_error (text : string) (s : BackState) : BackState :=
  {| isInitialized := isInitialized s;
     secret := secret s;
     configFolder := configFolder s;
     localeCode := localeCode s;
     exePath := exePath s;
     basePath := basePath s;
     preferences := preferences s;
     config := config s;
     commandMappings := commandMappings s;
     console := (console s ++ [(ConsoleError, text)])%list |}.

Definition set_commandMappings (m : IAppCommandsMappingData.t)
    (s : BackState) : BackState :=
  {| isInitialized := isInitialized s;
     secret := secret s;
     configFolder := configFolder s;
     localeCode := localeCode s;
     exePath := exePath s;
     basePath := basePath s;
     preferences := preferences s;
     config := config s;
     commandMappings := m;
     console := console s |}.

(** The [try { state.commandMappings = await readJsonFile(mappingsPath) }
    catch (e) { console.error(...) }] statement. *)
Definition loadCommandMappings (base : string) (s : BackState)
    : BackState :=
  let mappingsPath := path_join base commandMappingsFilename in
  match readJsonFile mappingsPath with
  | Normal data => set_commandMappings data s
  | Throw e =>
      console_error
        ("Cannot load mappings file " ++ dquote ++ commandMappingsFilename
           ++ dquote ++ ". " ++ toString e
           ++ ". Check if file exists and have valid values. "
           ++ "Without that file most of the entries won't work.") s
  end.

Definition initialize (message : string) (s : BackState)
    : Completion unit * BackState :=
  if isInitialized s then (Normal tt, s)
  else
    let s :=
      {| isInitialized := true;
         secret := secret s;
         configFolder := configFolder s;
         localeCode := localeCode s;
         exePath := exePath s;
         basePath := basePath s;
         preferences := preferences s;
         config := config s;
         commandMappings := commandMappings s;
         console := console s |} in
    match parseInitArgs message with
    | Throw e => (Throw e, s)
    | Normal content =>
        let s :=
          {| isInitialized := isInitialized s;
             secret := Some (arg_secret content);
             configFolder := Some (arg_configFolder content);
             localeCode := Some "unknown";
             exePath := Some (arg_exePath content);
             basePath := Some (arg_basePath content);
             preferences := preferences s;
             config := config s;
             commandMappings := commandMappings s;
             console := console s |} in
        match
          readPreferences
            (path_join (arg_configFolder content) preferencesFilename)
        with
        | Throw e => (Throw e, s)
        | Normal prefs =>
            let s :=
              {| isInitialized := isInitialized s;
                 secret := secret s;
                 configFolder := configFolder s;
                 localeCode := localeCode s;
                 exePath := exePath s;
                 basePath := basePath s;
                 preferences := Some prefs;
                 config := config s;
                 commandMappings := commandMappings s;
                 console := console s |} in
            match
              readConfig
                (path_join (arg_configFolder content) configFilename)
            with
            | Throw e => (Throw e, s)
            | Normal cfg =>
                let s :=
                  {| isInitialized := isInitialized s;
                     secret := secret s;
                     configFolder := configFolder s;
                     localeCode := localeCode s;
                     exePath := exePath s;
                     basePath := basePath s;
                     preferences := preferences s;
                     config := Some cfg;
                     commandMappings := commandMappings s;
                     console := console s |} in
                restOfStartup
                  (loadCommandMappings (arg_basePath content) s)
            end
        end
    end.

End WithFiles.
End Back.

(* ================================================================== *)
(** ** A Linux host used in the examples *)

Module Sample.

(** The directory part of a path, up to and including its last separator. *)
Definition dirname (p : string) : string :=
  JsString.jsSubstring p 0 (String.length p - String.length (getFilename p)).

(** A stand-in for [createCommand] on the examples' host: the default
    mapping's command followed by the path and the arguments, run in the
    file's directory; it throws when the path is empty. *)
Definition buildCommand (appPath appArgs : string)
    (mappings : IAppCommandsMappingData.t) : Completion Command.t :=
  if appPath =? "" then Throw (JsError "Error" "no path")
  else
    Normal
      {| Command.command :=
           ICommandMapping.command
             (IAppCommandsMappingData.defaultMapping mappings)
             ++ " " ++ appPath ++ " " ++ appArgs;
         Command.cwd := dirname appPath |}.

Definition ENOENT : JsValue := JsError "Error" "spawn /bin/sh ENOENT".

Fixpoint mentions (needle s : string) : bool :=
  prefix needle s ||
  match s with
  | EmptyString => false
  | String _ r => mentions needle r
  end.

Definition ENOTDIR : JsValue := JsError "Error" "spawn ENOTDIR".

(** Every process gets the pid [1000 + n] and exits, with two exceptions.
    No shell can be started in a working directory that does not exist
    (here, one whose path mentions [missing]): the process is returned and
    then emits the error.  And [exec] throws at once when the working
    directory lies under a regular file (here, under [file.txt]). *)
Definition osReply (n : nat) (command cwd : string)
    : Completion ChildProcess.t :=
  if mentions "file.txt/" cwd then Throw ENOTDIR
  else if mentions "missing" cwd then
    Normal
      {| ChildProcess.pid := None;
         ChildProcess.killed := false;
         ChildProcess.fate := FirstError ENOENT |}
  else
    Normal
      {| ChildProcess.pid := Some (1000 + n);
         ChildProcess.killed := false;
         ChildProcess.fate := FirstExit |}.

Definition linux : Env :=
  {| platform := "linux";
     path_join := PosixPath.join;
     fixSlashes := fixSlashesPosix;
     createCommand := buildCommand;
     spawnResult := osReply |}.

Definition mappings : IAppCommandsMappingData.t :=
  {| IAppCommandsMappingData.defaultMapping :=
       {| ICommandMapping.extensions := [];
          ICommandMapping.command := "xdg-open";
          ICommandMapping.includeFilename := true;
          ICommandMapping.includeArgs := true;
          ICommandMapping.setCwdToFileDir := None |};
     IAppCommandsMappingData.commandsMapping := [] |}.

Definition rowAB : ExecMapping.t :=
  {| ExecMapping.win32 := "A";
     ExecMapping.linux := Some "B";
     ExecMapping.darwin := None |}.

Definition openExternalOk : OpenExternalFunc := fun _ _ => Fulfilled.

Definition world0 : World :=
  {| events := []; later := []; spawned := 0 |}.

Definition game (applicationPath : string) : IGameInfo.t :=
  {| IGameInfo.title := "Doom";
     IGameInfo.applicationPath := applicationPath;
     IGameInfo.launchCommand := "";
     IGameInfo.placeholder := false |}.

Definition addApp (applicationPath launchCommand : string)
    (autoRunBefore waitForExit : bool) : IAdditionalApplicationInfo.t :=
  {| IAdditionalApplicationInfo.applicationPath := applicationPath;
     IAdditionalApplicationInfo.launchCommand := launchCommand;
     IAdditionalApplicationInfo.autoRunBefore := autoRunBefore;
     IAdditionalApplicationInfo.waitForExit := waitForExit |}.

Definition addAppOpts (a : IAdditionalApplicationInfo.t)
    (openExternal : OpenExternalFunc) : LaunchAddAppOpts.t :=
  {| LaunchAddAppOpts.fpPath := "/eXo";
     LaunchAddAppOpts.execMappings := [];
     LaunchAddAppOpts.mappings := mappings;
     LaunchAddAppOpts.openExternal := openExternal;
     LaunchAddAppOpts.addApp := a;
     LaunchAddAppOpts.native := false |}.

Definition gameOpts (g : IGameInfo.t)
    (addApps : option (list IAdditionalApplicationInfo.t))
    : LaunchGameOpts.t :=
  {| LaunchGameOpts.fpPath := "/eXo";
     LaunchGameOpts.execMappings := [];
     LaunchGameOpts.mappings := mappings;
     LaunchGameOpts.openExternal := openExternalOk;
     LaunchGameOpts.game := g;
     LaunchGameOpts.addApps := addApps;
     LaunchGameOpts.native := false |}.

End Sample.

(* ================================================================== *)
(** ** The specification's reading of the path resolver *)

Module ResolverSpec.

(** The first statement of [resolveApplicationPath]: the batch-script
    rewrite. *)
Definition rewriteBat (env : Env) (relativePath : string) : string :=
  if negb (platform env =? "win32")
     && JsString.endsWith relativePath ".bat"
  then JsString.jsSubstring relativePath 0 (String.length relativePath - 4)
         ++ ".command"
  else relativePath.

(** Following the specification's words: the row used for a path is the
    first one, in list order, whose [win32] field equals the path. *)
Definition matchingRow (execMappings : list ExecMapping.t)
    (filePath : string) : option ExecMapping.t :=
  List.find (fun row => ExecMapping.win32 row =? filePath) execMappings.

(** Following the specification's words: the field of a row for the
    running OS, the row's [win32] value when that field is absent or
    empty. *)
Definition nativeField (env : Env) (row : ExecMapping.t) : string :=
  let field :=
    if platform env =? "linux" then ExecMapping.linux row
    else if platform env =? "darwin" then ExecMapping.darwin row
    else None in
  match field with
  | Some s => if s =? "" then ExecMapping.win32 row else s
  | None => ExecMapping.win32 row
  end.

Definition substituted (env : Env) (execMappings : list ExecMapping.t)
    (filePath : string) : string :=
  match matchingRow execMappings filePath with
  | Some row => nativeField env row
  | None => filePath
  end.

End ResolverSpec.

(* ================================================================== *)
(** ** Observations on traces *)

(** [t] occurs in [s]. *)
Definition Contains (s t : string) : Prop :=
  exists before after, s = before ++ t ++ after.

Definition isAwait (e : Event) : bool :=
  match e with Await _ => true | _ => false end.

(** The suspension points of a trace. *)
Definition awaits (tr : list Event) : list Event := filter isAwait tr.

(** The command lines of the processes a trace started, in order. *)
Definition execCommands (tr : list Event) : list string :=
  flat_map (fun e => match e with Exec c _ _ => [c] | _ => [] end) tr.

(** [w'] is [w] after more effects: nothing done is undone. *)
Definition extends (w w' : World) : Prop :=
  (exists more, events w' = (events w ++ more)%list)
  /\ (exists more, later w' = (later w ++ more)%list)
  /\ spawned w <= spawned w'.

(** The entries [launchGame] may run before the game: those flagged
    [autoRunBefore], in list order. *)
Definition preRun (addApps : list IAdditionalApplicationInfo.t)
    : list IAdditionalApplicationInfo.t :=
  filter IAdditionalApplicationInfo.autoRunBefore addApps.

(** Flagged both [autoRunBefore] and [waitForExit]. *)
Definition waited (a : IAdditionalApplicationInfo.t) : bool :=
  IAdditionalApplicationInfo.autoRunBefore a
  && IAdditionalApplicationInfo.waitForExit a.

(** What [launchGame] does once the loop over the additional applications
    has ended with [r]. *)
Definition afterPreRun (env : Env) (opts : LaunchGameOpts.t)
    (r : option Promise * World) : Promise * World :=
  match r with
  | (Some p, w) => (p, w)
  | (None, w) => GameLauncher.launchMain env opts w
  end.

(* ================================================================== *)
(** ** The lifecycle relay: [doStuffs] and [logProcessOutput] *)

Module Relay.

(** A line handed to [log(source, content)]. *)
Definition LogLine : Type := (string * string)%type.

(** A listener, seen through what it writes to the log when called. *)
Definition Listener : Type := list JsValue -> list LogLine.

(** An [EventEmitter]: its listeners with the event each one is registered
    for, in registration order. *)
Definition EventEmitter : Type := list (string * Listener).

(** [emitter.on(event, listener)]. *)
Definition on (emitter : EventEmitter) (event : string) (listener : Listener)
    : EventEmitter :=
  (emitter ++ [(event, listener)])%list.

(** [emitter.emit(event, ...args)]: the listeners of [event] run in
    registration order. *)
Definition emit (emitter : EventEmitter) (event : string)
    (args : list JsValue) : list LogLine :=
  flat_map
    (fun entry : string * Listener =>
       if fst entry =? event then snd entry args else [])
    emitter.

Fixpoint doStuffs (emitter : EventEmitter) (events : list string)
    (callback : string -> list JsValue -> list LogLine) : EventEmitter :=
  match events with
  | [] => emitter
  | e :: rest =>
      doStuffs (on emitter e (fun args => callback e args)) rest callback
  end.

(** The parts of a [ChildProcess] that [logProcessOutput] touches. *)
Record ProcessHandle : Type := mkHandle {
  handle_pid : option nat;
  handle_listeners : EventEmitter;
  handle_stdout : option EventEmitter;
  handle_stderr : option EventEmitter
}.

Section WithHelpers.

(** [padStart] and [stringifyArray] (with [stringifyArrayOpts]) of
    [@shared/Util], whose sources are not at hand. *)
Context (padStart : Z -> nat -> string)
        (stringifyArray : list JsValue -> string).

(** [proc.pid ?? -1]. *)
Definition pidOrMinusOne (pid : option nat) : Z :=
  match pid with
  | Some n => Z.of_nat n
  | None => (-1)%Z
  end.

Definition logStuff (pid : option nat) (event : string) (args : list JsValue)
    : list LogLine :=
  [("Game Launcher",
    event ++ " (PID: " ++ padStart (pidOrMinusOne pid) 5 ++ ") "
      ++ stringifyArray args)].

(** The listener put on an output stream; a [data] event always carries
    its chunk, and [data.toString("utf8")] is the single argument handed
    on. *)
Definition streamListener (pid : option nat) (name : string) : Listener :=
  fun args => logStuff pid name [JsStr (toString (hd JsUndefined args))].

Definition logProcessOutput (proc : ProcessHandle) : ProcessHandle :=
  let pid := handle_pid proc in
  {| handle_pid := pid;
     handle_listeners :=
       doStuffs (handle_listeners proc)
         ["disconnect"; "error"; "exit"; "message"] (logStuff pid);
     handle_stdout :=
       match handle_stdout proc with
       | Some stream => Some (on stream "data" (streamListener pid "stdout"))
       | None => None
       end;
     handle_stderr :=
       match handle_stderr proc with
       | Some stream => Some (on stream "data" (streamListener pid "stderr"))
       | None => None
       end |}.

End WithHelpers.
End Relay.

(* ================================================================== *)
(** ** The back end's log, broadcast, exit and playlist callback *)

Module BackServer.

(** [ILogEntry]. *)
Record ILogEntry : Type := mkEntry {
  entry_source : string;
  entry_content : string;
  entry_timestamp : Z
}.

(** The field of [GamePlaylist] the callback reads. *)
Record GamePlaylist : Type := mkPlaylist { filename : string }.

(** A cached query: [cache.query.playlistId]. *)
Record QueryCache : Type := mkCache { playlistId : option string }.

(** The responses [broadcast] is called with in this file. *)
Inductive Response : Type :=
| LogEntryAdded (id : string) (entry : ILogEntry) (index : nat)
| PlaylistUpdate (id : string) (playlist : GamePlaylist).

(** A client of [state.server]: its [onmessage] handler (handlers are told
    apart by a number) and what has been sent to it. *)
Record Socket : Type := mkSocket {
  onmessage : nat;
  inbox : list string
}.

(** What evaluating the identifier [onMessageWrap] gives in [broadcast].
    The file neither declares nor imports it, so the evaluation throws. *)
Definition notDefined : JsValue :=
  JsError "ReferenceError" "onMessageWrap is not defined".

Definition onMessageWrap : Completion nat := Throw notDefined.

(** [server]: [None] while [state.server] is still the error proxy.
    [queries]: the object [state.queries], its keys in insertion order. *)
Record ServerState : Type := mkServer {
  server : option (list Socket);
  logs : list ILogEntry;
  console : list string;
  queries : list (string * QueryCache)
}.

Section WithJson.

(** [JSON.stringify(response)] and [BackOut[response.type]]. *)
Context (stringify : Response -> string) (typeName : Response -> string).

(** [state.server.clients.forEach(...)] inside [broadcast]: how the loop
    ends, the sockets after the sends, the console lines written, and the
    count.  The test [socket.onmessage === onMessageWrap] evaluates
    [onMessageWrap] at every client, before anything is written or sent to
    that client. *)
Fixpoint forEachClient (message name : string) (clients : list Socket)
    : Completion unit * list Socket * list string * nat :=
  match clients with
  | [] => (Normal tt, [], [], 0)
  | socket :: rest =>
      match onMessageWrap with
      | Throw e => (Throw e, socket :: rest, [], 0)
      | Normal handler =>
          let '(c, rest', lines, count) := forEachClient message name rest in
          if Nat.eqb (onmessage socket) handler then
            (c,
             {| onmessage := onmessage socket;
                inbox := (inbox socket ++ [message])%list |} :: rest',
             ("Broadcast: " ++ name) :: lines,
             S count)
          else (c, socket :: rest', lines, count)
      end
  end.

Definition broadcast (response : Response) (s : ServerState)
    : Completion nat * ServerState :=
  match server s with
  | None => (Normal 0, s)
  | Some clients =>
      let '(c, clients', lines, count) :=
        forEachClient (stringify response) (typeName response) clients in
      (match c with
       | Normal _ => Normal count
       | Throw e => Throw e
       end,
       {| server := Some clients';
          logs := logs s;
          console := (console s ++ lines)%list;
          queries := queries s |})
  end.

(** A call [broadcast(...);] as a statement: the count is dropped. *)
Definition discard {A : Type} (r : Completion A * ServerState)
    : Completion unit * ServerState :=
  match r with
  | (Normal _, s) => (Normal tt, s)
  | (Throw e, s) => (Throw e, s)
  end.

(** [id || ""]. *)
Definition idOrEmpty (id : option string) : string :=
  match id with
  | Some i => i
  | None => ""
  end.

(** [log(preEntry, id)]; [now] is [Date.now()].  Source and content are
    strings here, so the two type warnings never fire. *)
Definition log (source content : string) (id : option string) (now : Z)
    (s : ServerState) : Completion unit * ServerState :=
  let entry :=
    {| entry_source := source;
       entry_content := content;
       entry_timestamp := now |} in
  let s :=
    {| server := server s;
       logs := (logs s ++ [entry])%list;
       console := console s;
       queries := queries s |} in
  discard (broadcast (LogEntryAdded (idOrEmpty id) entry
                        (List.length (logs s) - 1)) s).

(** [state.queries[hash]]. *)
Fixpoint lookupQuery (hash : string) (qs : list (string * QueryCache))
    : option QueryCache :=
  match qs with
  | [] => None
  | (k, cache) :: rest =>
      if k =? hash then Some cache else lookupQuery hash rest
  end.

(** [delete state.queries[hash]]. *)
Definition deleteQuery (hash : string) (qs : list (string * QueryCache))
    : list (string * QueryCache) :=
  filter (fun entry => negb (fst entry =? hash)) qs.

Definition samePlaylist (cache : QueryCache) (playlist : GamePlaylist)
    : bool :=
  match playlistId cache with
  | Some id => id =? filename playlist
  | None => false
  end.

(** The loop of [onPlaylistAddOrUpdate] over [Object.keys(state.queries)]. *)
Fixpoint clearQueryCaches (playlist : GamePlaylist) (hashes : list string)
    (qs : list (string * QueryCache)) : list (string * QueryCache) :=
  match hashes with
  | [] => qs
  | hash :: rest =>
      match lookupQuery hash qs with
      | Some cache =>
          if samePlaylist cache playlist
          then clearQueryCaches playlist rest (deleteQuery hash qs)
          else clearQueryCaches playlist rest qs
      | None => clearQueryCaches playlist rest qs
      end
  end.

Definition onPlaylistAddOrUpdate (playlist : GamePlaylist) (s : ServerState)
    : Completion unit * ServerState :=
  let hashes := map fst (queries s) in
  let s :=
    {| server := server s;
       logs := logs s;
       console := console s;
       queries := clearQueryCaches playlist hashes (queries s) |} in
  discard (broadcast (PlaylistUpdate "" playlist) s).

End WithJson.

(** How a server answers [close(callback)]: the callback is never called,
    or it is called, with an error or without. *)
Inductive CloseReply : Type :=
| NeverCalled
| Called (error : option JsValue).

(** [wsServer]: [None] while [state.server] is the error proxy.
    [fileServer]: [None] while [state.fileServer] is [undefined]. *)
Record ExitState : Type := mkExit {
  isExit : bool;
  wsServer : option CloseReply;
  fileServer : option CloseReply
}.

Inductive ExitEffect : Type :=
| BroadcastQuit
| CloseWebSocketServer
| CloseFileServer
| ConsoleWarn (text : string) (error : JsValue)
| ProcessExit.

(** The warning a [close] callback writes: [if (error) console.warn(...)]. *)
Definition closeWarning (text : string) (reply : CloseReply)
    : list ExitEffect :=
  match reply with
  | Called (Some error) =>
      if truthy error then [ConsoleWarn text error] else []
  | _ => []
  end.

(** Whether the promise wrapped around a [close] call resolves. *)
Definition closeResolves (reply : CloseReply) : bool :=
  match reply with
  | Called _ => true
  | NeverCalled => false
  end.

Definition exit (s : ExitState) : ExitState * list ExitEffect :=
  if isExit s then (s, [])
  else
    let websocket :=
      match wsServer s with
      | None => []
      | Some reply =>
          CloseWebSocketServer
            :: closeWarning
                 "An error occurred whie closing the WebSocket server." reply
      end in
    let files :=
      match fileServer s with
      | None => []
      | Some reply =>
          CloseFileServer
            :: closeWarning
                 "An error occurred whie closing the file server." reply
      end in
    let allResolved :=
      match wsServer s with
      | None => true
      | Some reply => closeResolves reply
      end
      && match fileServer s with
         | None => false
         | Some reply => closeResolves reply
         end in
    ({| isExit := true; wsServer := wsServer s; fileServer := fileServer s |},
     (BroadcastQuit :: websocket ++ files
        ++ if allResolved then [ProcessExit] else [])%list).

(** [process.env.APPIMAGE] as a condition. *)
Definition envSet (value : option string) : bool :=
  match value with
  | Some v => negb (v =? "")
  | None => false
  end.

Definition getEmbeddedExodosPath (platform : Platform)
    (APPIMAGE : option string) : string :=
  if envSet APPIMAGE || (platform =? "darwin") then "../" else "../../".

(** The value [initialize] stores in [state.config.exodosPath]. *)
Definition resolveExodosPath (isAbsolute : string -> bool)
    (path_join : string -> string -> string) (platform : Platform)
    (APPIMAGE : option string) (basePath : string)
    (useEmbeddedExodosPath : bool) (configured : string) : string :=
  let exodosPath :=
    if useEmbeddedExodosPath then getEmbeddedExodosPath platform APPIMAGE
    else configured in
  if negb (isAbsolute exodosPath) then path_join basePath exodosPath
  else exodosPath.

End BackServer.

(* ================================================================== *)
(** ** The request handlers that call the launcher *)

Module Responses.

(** A game as a handler receives it: the launcher's fields and
    [game.platform]. *)
Record Game : Type := mkGame {
  info : IGameInfo.t;
  gamePlatform : string
}.

(** [state.config], [state.commandMappings], [state.execMappings] and the
    [openExternal] made for the calling client. *)
Record BackContext : Type := mkContext {
  exodosPath : string;
  nativePlatforms : list string;
  commandMappings : IAppCommandsMappingData.t;
  execMappings : list ExecMapping.t;
  openExternal : OpenExternalFunc
}.

(** What becomes of a handler call: the promise the [async] handler
    returns, the promise of the launch that it let go of without awaiting
    (if the launcher returned one), and the world afterwards. *)
Record HandlerResult : Type := mkResult {
  reply : Promise;
  letGo : option Promise;
  world : World
}.

Section WithEnv.

(** [path.resolve] on the host. *)
Context (env : Env) (path_resolve : string -> string).

(** [state.config.nativePlatforms.some((p) => p === game.platform)]. *)
Definition isNative (ctx : BackContext) (game : Game) : bool :=
  existsb (fun p => p =? gamePlatform game) (nativePlatforms ctx).

Definition gameOpts (ctx : BackContext) (game : Game)
    (addApps : option (list IAdditionalApplicationInfo.t))
    : LaunchGameOpts.t :=
  {| LaunchGameOpts.game := info game;
     LaunchGameOpts.addApps := addApps;
     LaunchGameOpts.fpPath := path_resolve (exodosPath ctx);
     LaunchGameOpts.native := isNative ctx game;
     LaunchGameOpts.mappings := commandMappings ctx;
     LaunchGameOpts.execMappings := execMappings ctx;
     LaunchGameOpts.openExternal := openExternal ctx |}.

(** [BackIn.LAUNCH_COMMAND]. *)
Definition onLaunchCommand (ctx : BackContext) (filePath : string)
    (w : World) : HandlerResult :=
  let appPath :=
    fixSlashes env
      (path_join env (path_resolve (exodosPath ctx)) filePath) in
  match
    GameLauncher.launchCommand env appPath "" (commandMappings ctx) w
  with
  | (Throw e, w) => {| reply := Rejected e; letGo := None; world := w |}
  | (Normal p, w) => {| reply := Fulfilled; letGo := Some p; world := w |}
  end.

(** [BackIn.LAUNCH_GAME]. *)
Definition onLaunchGame (ctx : BackContext) (game : Game)
    (addApps : option (list IAdditionalApplicationInfo.t)) (w : World)
    : HandlerResult :=
  let (p, w) := GameLauncher.launchGame env (gameOpts ctx game addApps) w in
  {| reply := Fulfilled; letGo := Some p; world := w |}.

(** [BackIn.LAUNCH_GAME_SETUP]. *)
Definition onLaunchGameSetup (ctx : BackContext) (game : Game)
    (addApps : option (list IAdditionalApplicationInfo.t)) (w : World)
    : HandlerResult :=
  let (p, w) :=
    GameLauncher.launchGameSetup env (gameOpts ctx game addApps) w in
  {| reply := Fulfilled; letGo := Some p; world := w |}.

(** [BackIn.LAUNCH_ADDAPP]; [game] may be absent. *)
Definition onLaunchAddApp (ctx : BackContext) (game : option Game)
    (addApp : IAdditionalApplicationInfo.t) (w : World) : HandlerResult :=
  let opts :=
    {| LaunchAddAppOpts.addApp := addApp;
       LaunchAddAppOpts.fpPath := path_resolve (exodosPath ctx);
       LaunchAddAppOpts.native :=
         match game with
         | Some g => isNative ctx g
         | None => false
         end;
       LaunchAddAppOpts.mappings := commandMappings ctx;
       LaunchAddAppOpts.execMappings := execMappings ctx;
       LaunchAddAppOpts.openExternal := openExternal ctx |} in
  let (p, w) := GameLauncher.launchAdditionalApplication env opts w in
  {| reply := Fulfilled; letGo := Some p; world := w |}.

End WithEnv.
End Responses.

(* ================================================================== *)
(** ** Where the set-up path is the one meant *)

Fixpoint hasSeparator (s : string) : bool :=
  match s with
  | EmptyString => false
  | String c r => isSeparator c || hasSeparator r
  end.

(** [name] does not occur in [dir ++ name] before the end of [dir]. *)
Fixpoint firstOccurrenceAtEnd (dir name : string) : bool :=
  match dir with
  | EmptyString => true
  | String _ d =>
      negb (prefix name (dir ++ name)) && firstOccurrenceAtEnd d name
  end.

(** A directory prefix: empty, or ending in a separator. *)
Definition isDirectoryPrefix (dir : string) : Prop :=
  dir = "" \/ exists d c, dir = d ++ String c "" /\ isSeparator c = true.

(* ================================================================== *)
(** ** A second host for the examples: command building can fail *)

Module Strict.

Definition noDefault : JsValue :=
  JsError "Error" "no command for the default mapping".

(** A stand-in for [createCommand] that throws when the table's default
    mapping has no command, and builds as on the first host otherwise. *)
Definition buildCommand (appPath appArgs : string)
    (mappings : IAppCommandsMappingData.t) : Completion Command.t :=
  if ICommandMapping.command
       (IAppCommandsMappingData.defaultMapping mappings) =? ""
  then Throw noDefault
  else Sample.buildCommand appPath appArgs mappings.

Definition linux : Env :=
  {| platform := "linux";
     path_join := PosixPath.join;
     fixSlashes := fixSlashesPosix;
     createCommand := buildCommand;
     spawnResult := Sample.osReply |}.

(** The table the back end starts with. *)
Definition emptyTable : IAppCommandsMappingData.t :=
  {| IAppCommandsMappingData.defaultMapping := EmptyCommandMapping;
     IAppCommandsMappingData.commandsMapping := [] |}.

Definition gameOpts (g : IGameInfo.t)
    (addApps : option (list IAdditionalApplicationInfo.t))
    : LaunchGameOpts.t :=
  {| LaunchGameOpts.fpPath := "/eXo";
     LaunchGameOpts.execMappings := [];
     LaunchGameOpts.mappings := emptyTable;
     LaunchGameOpts.openExternal := Sample.openExternalOk;
     LaunchGameOpts.game := g;
     LaunchGameOpts.addApps := addApps;
     LaunchGameOpts.native := false |}.

End Strict.

(** One of the two legacy pseudo-paths. *)
Definition isPseudoPath (a : IAdditionalApplicationInfo.t) : bool :=
  (IAdditionalApplicationInfo.applicationPath a =? ":message:")
  || (IAdditionalApplicationInfo.applicationPath a =? ":extras:").

(** The list [launchGame] loops over. *)
Definition addAppList (opts : LaunchGameOpts.t)
    : list IAdditionalApplicationInfo.t :=
  match LaunchGameOpts.addApps opts with
  | Some l => l
  | None => []
  end.

(** The caches of a playlist, as a test on the entries of [state.queries]. *)
Definition cachesPlaylist (playlist : BackServer.GamePlaylist)
    (entry : string * BackServer.QueryCache) : bool :=
  BackServer.samePlaylist (snd entry) playlist.

(** The same back-end context with another exec-mapping list. *)
Definition withExecMappings (ctx : Responses.BackContext)
    (rows : list ExecMapping.t) : Responses.BackContext :=
  {| Responses.exodosPath := Responses.exodosPath ctx;
     Responses.nativePlatforms := Responses.nativePlatforms ctx;
     Responses.commandMappings := Responses.commandMappings ctx;
     Responses.execMappings := rows;
     Responses.openExternal := Responses.openExternal ctx |}.

(** The command [launchGame] builds for the game itself, and the one
    [launchGameSetup] builds for the set-up script. *)
Definition mainCommand (env : Env) (opts : LaunchGameOpts.t)
    : Completion Command.t :=
  createCommand env
    (GameLauncher.resolveApplicationPath env
       (IGameInfo.applicationPath (LaunchGameOpts.game opts))
       (LaunchGameOpts.fpPath opts) (LaunchGameOpts.execMappings opts)
       (LaunchGameOpts.native opts))
    (IGameInfo.launchCommand (LaunchGameOpts.game opts))
    (LaunchGameOpts.mappings opts).

Definition setupCommand (env : Env) (opts : LaunchGameOpts.t)
    : Completion Command.t :=
  createCommand env
    (GameLauncher.resolveApplicationPath env
       (JsString.replace
          (IGameInfo.applicationPath (LaunchGameOpts.game opts))
          (getFilename (IGameInfo.applicationPath (LaunchGameOpts.game opts)))
          "install.command")
       (LaunchGameOpts.fpPath opts) (LaunchGameOpts.execMappings opts)
       (LaunchGameOpts.native opts))
    (IGameInfo.launchCommand (LaunchGameOpts.game opts))
    (LaunchGameOpts.mappings opts).

(** The operating system's answer to an [exec] of [command] in world [w]. *)
Definition spawnOf (env : Env) (command : Command.t) (w : World)
    : Completion ChildProcess.t :=
  spawnResult env (spawned w) (Command.command command)
    (Command.cwd command).

(* ================================================================== *)
(** ** Strings *)

Section StringFacts.

Lemma length_app_string (a b : string) :
  String.length (a ++ b) = String.length a + String.length b.
Proof. induction a as [|c a IH]; simpl; [reflexivity | now rewrite IH]. Qed.

Lemma app_string_nil_r (a : string) : a ++ "" = a.
Proof. induction a as [|c a IH]; simpl; [reflexivity | now rewrite IH]. Qed.

Lemma app_string_assoc (a b c : string) : (a ++ b) ++ c = a ++ (b ++ c).
Proof. induction a as [|x a IH]; simpl; [reflexivity | now rewrite IH]. Qed.

Lemma substring_whole (b : string) : substring 0 (String.length b) b = b.
Proof. induction b as [|c b IH]; simpl; [reflexivity | now rewrite IH]. Qed.

Lemma substring_after (a b : string) :
  substring (String.length a) (String.length b) (a ++ b) = b.
Proof.
  induction a as [|c a IH]; simpl; [apply substring_whole | exact IH].
Qed.

Lemma substring_before (a b : string) :
  substring 0 (String.length a) (a ++ b) = a.
Proof.
  induction a as [|c a IH]; simpl.
  - now destruct b.
  - now rewrite IH.
Qed.

Lemma endsWith_same_length (a b suffix : string) :
  String.length b = String.length suffix ->
  JsString.endsWith (a ++ b) suffix = (b =? suffix).
Proof.
  intros Hlen. unfold JsString.endsWith.
  rewrite length_app_string, <- Hlen.
  replace (String.length a + String.length b - String.length b)
    with (String.length a) by lia.
  rewrite substring_after.
  replace (String.length b <=? String.length a + String.length b)%nat
    with true by (symmetry; apply Nat.leb_le; lia).
  reflexivity.
Qed.

Lemma endsWith_app (a b : string) : JsString.endsWith (a ++ b) b = true.
Proof.
  rewrite endsWith_same_length by reflexivity. apply String.eqb_refl.
Qed.

Lemma jsSubstring_stem (a b : string) :
  JsString.jsSubstring (a ++ b) 0
    (String.length (a ++ b) - String.length b) = a.
Proof.
  unfold JsString.jsSubstring. rewrite length_app_string.
  replace (String.length a + String.length b - String.length b - 0)
    with (String.length a) by lia.
  apply substring_before.
Qed.

End StringFacts.

(* ================================================================== *)
(** ** The path resolver *)

Section Resolver.

Context (env : Env).

Import GameLauncher ResolverSpec.

Lemma scanExecMappings_substituted execMappings filePath :
  scanExecMappings env execMappings filePath
  = substituted env execMappings filePath.
Proof.
  unfold substituted, matchingRow.
  induction execMappings as [|row rest IH]; simpl; [reflexivity|].
  destruct (ExecMapping.win32 row =? filePath) eqn:Hrow; [|exact IH].
  apply String.eqb_eq in Hrow. unfold nativeField.
  destruct (platform env =? "linux"); [reflexivity|].
  destruct (platform env =? "darwin"); [reflexivity|].
  now symmetry.
Qed.

Lemma scanExecMappings_no_match execMappings filePath :
  (forall row, In row execMappings -> ExecMapping.win32 row <> filePath) ->
  scanExecMappings env execMappings filePath = filePath.
Proof.
  induction execMappings as [|row rest IH]; simpl; intros Hno;
    [reflexivity|].
  destruct (ExecMapping.win32 row =? filePath) eqn:Hrow.
  - apply String.eqb_eq in Hrow. exfalso. apply (Hno row); auto.
  - apply IH. intros r Hr. apply Hno. now right.
Qed.

Lemma resolveApplicationPath_steps relativePath fpPath execMappings native :
  resolveApplicationPath env relativePath fpPath execMappings native
  = fixSlashes env
      (path_join env fpPath
         (if negb (platform env =? "win32") && native
          then scanExecMappings env execMappings
                 (rewriteBat env relativePath)
          else rewriteBat env relativePath)).
Proof. reflexivity. Qed.

Lemma rewriteBat_bat stem :
  (platform env =? "win32") = false ->
  rewriteBat env (stem ++ ".bat") = stem ++ ".command".
Proof.
  intros Hos. unfold rewriteBat. rewrite Hos, endsWith_app. simpl negb.
  cbv iota. simpl andb.
  change 4 with (String.length ".bat"). now rewrite jsSubstring_stem.
Qed.

Lemma rewriteBat_win32 relativePath :
  platform env = "win32" -> rewriteBat env relativePath = relativePath.
Proof. intros Hos. unfold rewriteBat. now rewrite Hos. Qed.

Lemma rewriteBat_other_suffix stem suffix :
  String.length suffix = 4 -> suffix <> ".bat" ->
  rewriteBat env (stem ++ suffix) = stem ++ suffix.
Proof.
  intros Hlen Hneq. unfold rewriteBat.
  rewrite endsWith_same_length by exact Hlen.
  apply String.eqb_neq in Hneq. rewrite Hneq.
  now rewrite Bool.andb_false_r.
Qed.

End Resolver.

(* ================================================================== *)
(** ** Node's posix join keeps a plain last segment *)

Section PosixFacts.

Import PosixPath.

Lemma segments_nonempty (s : string) : segments s <> [].
Proof.
  induction s as [|c r IH]; simpl; [discriminate|].
  destruct (Ascii.eqb c sep); [discriminate|].
  destruct (segments r); discriminate.
Qed.

Lemma segments_app_sep (a b : string) :
  segments (a ++ String sep b) = (segments a ++ segments b)%list.
Proof.
  induction a as [|c a IH]; simpl.
  - reflexivity.
  - rewrite IH. destruct (Ascii.eqb c sep); [reflexivity|].
    pose proof (segments_nonempty a) as Hne.
    destruct (segments a); [contradiction | reflexivity].
Qed.

Lemma joinSegments_last (l : list string) (s : string) :
  exists pre, joinSegments (l ++ [s]) = pre ++ s.
Proof.
  unfold joinSegments. induction l as [|h t [pre IH]].
  - now exists "".
  - exists (h ++ "/" ++ pre). simpl app. simpl String.concat.
    destruct (t ++ [s])%list eqn:Hts.
    + now destruct t.
    + rewrite IH. now rewrite !app_string_assoc.
Qed.

Lemma normStep_plain allow stack c :
  plain c -> normStep allow stack (String c "") = String c "" :: stack.
Proof.
  intros [_ Hdot]. unfold normStep. simpl. rewrite Hdot.
  now destruct c as [[] [] [] [] [] [] [] []].
Qed.

Lemma normalize_last_segment (q : string) (c : ascii) :
  plain c ->
  segments (q ++ String c "") = (removelast (segments (q ++ String c ""))
                                   ++ [String c ""])%list ->
  exists pre, normalize (q ++ String c "") = pre ++ String c "".
Proof.
  intros Hc Hseg. unfold normalize.
  assert (Hnil : (q ++ String c "" =? "") = false) by now destruct q.
  rewrite Hnil.
  assert (Htr : JsString.endsWith (q ++ String c "") "/" = false).
  { rewrite endsWith_same_length by reflexivity.
    destruct Hc as [Hsep _]. simpl. unfold sep in Hsep. now rewrite Hsep. }
  rewrite Htr, Hseg, fold_left_app. simpl fold_left.
  rewrite normStep_plain by exact Hc. simpl rev.
  destruct (joinSegments_last
              (rev (fold_left (normStep (negb (isAbsolute (q ++ String c ""))))
                      (removelast (segments (q ++ String c ""))) []))
              (String c "")) as [pre Hpre].
  rewrite Hpre.
  assert (Hne : (pre ++ String c "" =? "") = false) by now destruct pre.
  rewrite Hne.
  destruct (isAbsolute (q ++ String c "")).
  - exists ("/" ++ pre). now rewrite app_string_assoc.
  - now exists pre.
Qed.

Lemma segments_plain (c : ascii) :
  plain c -> segments (String c "") = [String c ""].
Proof. intros [Hsep _]. simpl. now rewrite Hsep. Qed.

Lemma join_last_segment (a : string) (c : ascii) :
  plain c -> exists pre, join a (String c "") = pre ++ String c "".
Proof.
  intros Hc. unfold join. simpl (String c "" =? "").
  destruct (a =? "").
  - apply (normalize_last_segment "" c Hc). cbn [String.append].
    now rewrite segments_plain.
  - replace (a ++ "/" ++ String c "") with ((a ++ "/") ++ String c "")
      by now rewrite app_string_assoc.
    apply (normalize_last_segment (a ++ "/") c Hc).
    rewrite app_string_assoc. simpl ("/" ++ String c "").
    change "/"%char with sep.
    rewrite segments_app_sep, segments_plain by exact Hc.
    now rewrite removelast_last.
Qed.

Lemma fixSlashesPosix_app (a b : string) :
  fixSlashesPosix (a ++ b) = fixSlashesPosix a ++ fixSlashesPosix b.
Proof.
  unfold fixSlashesPosix.
  induction a as [|c a IH]; simpl; [reflexivity | now rewrite IH].
Qed.

(** On the examples' host a resolved path ends in its last segment. *)
Lemma linux_join_ends_with (fpPath : string) (c : ascii) :
  plain c -> Ascii.eqb c "\"%char = false ->
  JsString.endsWith (fixSlashesPosix (join fpPath (String c "")))
    (String c "") = true.
Proof.
  intros Hc Hbs. destruct (join_last_segment fpPath c Hc) as [pre Hpre].
  rewrite Hpre, fixSlashesPosix_app.
  replace (fixSlashesPosix (String c "")) with (String c "")
    by (unfold fixSlashesPosix; simpl; now rewrite Hbs).
  apply endsWith_app.
Qed.

End PosixFacts.

(* ================================================================== *)
(** ** Properties of the path resolver *)

(** C4. With [native] set on a non-Windows OS, [resolveApplicationPath]
    looks the (possibly [.bat]-rewritten) path up in the exec mappings: the
    first row in list order whose [win32] field equals it decides, rows
    after it are not consulted, and the row's [linux] field (on Linux) or
    [darwin] field (on macOS) is substituted, the [win32] value standing in
    for an absent or empty field.  Without [native] nothing is substituted.
    On Linux, resolving ["A"] against the row [{win32:"A", linux:"B"}] gives
    a path ending in ["B"] with [native] and in ["A"] without. *)
Theorem C4_exec_mapping_substitution :
  forall (env : Env) (relativePath fpPath : string)
         (execMappings : list ExecMapping.t),
    (platform env <> "win32" ->
     GameLauncher.resolveApplicationPath env relativePath fpPath
       execMappings true
     = fixSlashes env
         (path_join env fpPath
            (ResolverSpec.substituted env execMappings
               (ResolverSpec.rewriteBat env relativePath))))
    /\ GameLauncher.resolveApplicationPath env relativePath fpPath
         execMappings false
       = fixSlashes env
           (path_join env fpPath (ResolverSpec.rewriteBat env relativePath))
    /\ (forall before row after,
           execMappings = (before ++ row :: after)%list ->
           (forall r, In r before ->
                      ExecMapping.win32 r
                      <> ResolverSpec.rewriteBat env relativePath) ->
           ExecMapping.win32 row = ResolverSpec.rewriteBat env relativePath ->
           ResolverSpec.substituted env execMappings
             (ResolverSpec.rewriteBat env relativePath)
           = ResolverSpec.nativeField env row)
    /\ JsString.endsWith
         (GameLauncher.resolveApplicationPath Sample.linux "A" fpPath
            [Sample.rowAB] true) "B" = true
    /\ JsString.endsWith
         (GameLauncher.resolveApplicationPath Sample.linux "A" fpPath
            [Sample.rowAB] false) "A" = true.
Proof.
  intros env relativePath fpPath execMappings.
  repeat split.
  - intros Hos. apply String.eqb_neq in Hos.
    rewrite resolveApplicationPath_steps, Hos. simpl.
    now rewrite scanExecMappings_substituted.
  - rewrite resolveApplicationPath_steps. now rewrite Bool.andb_false_r.
  - intros before row after -> Hbefore Hrow.
    unfold ResolverSpec.substituted, ResolverSpec.matchingRow.
    induction before as [|r before IH]; simpl.
    + apply String.eqb_eq in Hrow. now rewrite Hrow.
    + assert (Hr : (ExecMapping.win32 r
                    =? ResolverSpec.rewriteBat env relativePath) = false).
      { apply String.eqb_neq. apply Hbefore. now left. }
      rewrite Hr. apply IH. intros r' Hr'. apply Hbefore. now right.
  - apply (linux_join_ends_with fpPath "B"%char); [split|]; reflexivity.
  - apply (linux_join_ends_with fpPath "A"%char); [split|]; reflexivity.
Qed.

Lemma C4_exec_mapping_substitution_witness :
  GameLauncher.resolveApplicationPath Sample.linux "run.bat" "/eXo"
    [ {| ExecMapping.win32 := "other.exe";
         ExecMapping.linux := Some "other";
         ExecMapping.darwin := None |};
      {| ExecMapping.win32 := "run.command";
         ExecMapping.linux := Some "";
         ExecMapping.darwin := Some "run.app" |};
      {| ExecMapping.win32 := "run.command";
         ExecMapping.linux := Some "never";
         ExecMapping.darwin := None |} ] true
  = "/eXo/run.command".
Proof.
  rewrite (proj1 (C4_exec_mapping_substitution Sample.linux "run.bat" "/eXo" _)).
  - reflexivity.
  - simpl. discriminate.
Defined.

(** C5, as the code has it.  On a non-Windows OS a path ending in [.bat] has
    its last four characters replaced by [.command] before anything else:
    without [native], or when no exec-mapping row has the rewritten path as
    its [win32] field, the result is the rewritten path joined onto the
    collection root; with [native] the exec-mapping lookup is applied to the
    rewritten path.  On Windows the path is neither rewritten nor
    substituted: it is joined onto the collection root as it is. *)
Theorem C5_bat_rewrite_then_join :
  forall (env : Env) (stem fpPath : string)
         (execMappings : list ExecMapping.t) (native : bool),
    (platform env <> "win32" ->
     native = false
     \/ (forall row, In row execMappings ->
                     ExecMapping.win32 row <> stem ++ ".command") ->
     GameLauncher.resolveApplicationPath env (stem ++ ".bat") fpPath
       execMappings native
     = fixSlashes env (path_join env fpPath (stem ++ ".command")))
    /\ (platform env <> "win32" ->
        GameLauncher.resolveApplicationPath env (stem ++ ".bat") fpPath
          execMappings true
        = fixSlashes env
            (path_join env fpPath
               (ResolverSpec.substituted env execMappings
                  (stem ++ ".command"))))
    /\ (platform env = "win32" ->
        forall relativePath,
          GameLauncher.resolveApplicationPath env relativePath fpPath
            execMappings native
          = fixSlashes env (path_join env fpPath relativePath)).
Proof.
  intros env stem fpPath execMappings native. repeat split.
  - intros Hos Hcase. apply String.eqb_neq in Hos.
    rewrite resolveApplicationPath_steps, rewriteBat_bat, Hos by exact Hos.
    simpl negb. cbv iota. simpl andb.
    destruct Hcase as [-> | Hno]; [reflexivity|].
    destruct native; [|reflexivity].
    now rewrite scanExecMappings_no_match.
  - intros Hos. apply String.eqb_neq in Hos.
    rewrite resolveApplicationPath_steps, rewriteBat_bat, Hos by exact Hos.
    simpl. now rewrite scanExecMappings_substituted.
  - intros Hos relativePath.
    rewrite resolveApplicationPath_steps, rewriteBat_win32 by exact Hos.
    now rewrite Hos.
Qed.

Lemma C5_bat_rewrite_then_join_witness :
  GameLauncher.resolveApplicationPath Sample.linux
    ("eXo/eXoDOS/doom/doom" ++ ".bat") "/eXo" [Sample.rowAB] true
  = "/eXo/eXo/eXoDOS/doom/doom.command".
Proof.
  rewrite (proj1 (C5_bat_rewrite_then_join Sample.linux
                    "eXo/eXoDOS/doom/doom" "/eXo" [Sample.rowAB] true)).
  - reflexivity.
  - simpl. discriminate.
  - right. intros row [<-|[]]. simpl. discriminate.
Defined.

(** C5 as stated fails on Linux: with [native] set, the rewritten path
    [a.command] is looked up in the exec mappings and replaced, so the
    resolved path of [a.bat] is not [a.bat] with its last four characters
    replaced by [.command], joined or not. *)
Lemma C5_counterexample :
  let row := {| ExecMapping.win32 := "a.command";
                ExecMapping.linux := Some "a.sh";
                ExecMapping.darwin := None |} in
  let resolved :=
    GameLauncher.resolveApplicationPath Sample.linux "a.bat" "/eXo" [row]
      true in
  resolved = "/eXo/a.sh"
  /\ resolved <> "a.command"
  /\ resolved <> fixSlashes Sample.linux
                   (path_join Sample.linux "/eXo" "a.command")
  /\ JsString.endsWith resolved ".command" = false.
Proof. cbv zeta. repeat split; vm_compute; discriminate. Qed.

(** C10. The batch-script rewrite looks for the exact lowercase suffix
    [.bat].  A path ending in any other four characters, such as [.BAT] or
    [.Bat], does not end with [.bat] for the resolver; on every OS it goes
    unchanged to the exec-mapping lookup and the join, and a path that the
    rewrite does change ends in the exact string [.bat]. *)
Theorem C10_bat_rewrite_case_sensitive :
  forall (env : Env) (stem suffix fpPath : string)
         (execMappings : list ExecMapping.t) (native : bool),
    String.length suffix = 4 ->
    suffix <> ".bat" ->
    JsString.endsWith (stem ++ suffix) ".bat" = false
    /\ ResolverSpec.rewriteBat env (stem ++ suffix) = stem ++ suffix
    /\ GameLauncher.resolveApplicationPath env (stem ++ suffix) fpPath
         execMappings native
       = fixSlashes env
           (path_join env fpPath
              (if negb (platform env =? "win32") && native
               then GameLauncher.scanExecMappings env execMappings
                      (stem ++ suffix)
               else stem ++ suffix))
    /\ GameLauncher.resolveApplicationPath env (stem ++ suffix) fpPath
         execMappings false
       = fixSlashes env (path_join env fpPath (stem ++ suffix))
    /\ (forall relativePath,
          ResolverSpec.rewriteBat env relativePath <> relativePath ->
          JsString.endsWith relativePath ".bat" = true).
Proof.
  intros env stem suffix fpPath execMappings native Hlen Hneq.
  assert (Hrw := rewriteBat_other_suffix env stem suffix Hlen Hneq).
  repeat split.
  - rewrite endsWith_same_length by exact Hlen. now apply String.eqb_neq.
  - exact Hrw.
  - now rewrite resolveApplicationPath_steps, Hrw.
  - rewrite resolveApplicationPath_steps, Hrw.
    now rewrite Bool.andb_false_r.
  - intros relativePath Hchanged. unfold ResolverSpec.rewriteBat in Hchanged.
    destruct (JsString.endsWith relativePath ".bat"); [reflexivity|].
    rewrite Bool.andb_false_r in Hchanged. now contradiction Hchanged.
Qed.

Lemma C10_bat_rewrite_case_sensitive_witness :
  GameLauncher.resolveApplicationPath Sample.linux ("GAME" ++ ".BAT") "/eXo"
    [] false = "/eXo/GAME.BAT"
  /\ GameLauncher.resolveApplicationPath Sample.linux ("Game" ++ ".Bat")
       "/eXo" [] true = "/eXo/Game.Bat".
Proof.
  split.
  - rewrite (proj1 (proj2 (proj2 (proj2
      (C10_bat_rewrite_case_sensitive Sample.linux "GAME" ".BAT" "/eXo" []
         false eq_refl ltac:(discriminate)))))).
    reflexivity.
  - rewrite (proj1 (proj2 (proj2
      (C10_bat_rewrite_case_sensitive Sample.linux "Game" ".Bat" "/eXo" []
         true eq_refl ltac:(discriminate))))).
    reflexivity.
Defined.

(* ================================================================== *)
(** ** Effects of the launcher's building blocks *)

Section LauncherFacts.

Context (env : Env).

Import GameLauncher.

Lemma extends_refl w : extends w w.
Proof.
  repeat split; try (exists []; now rewrite app_nil_r). apply Nat.le_refl.
Qed.

Lemma extends_trans w1 w2 w3 :
  extends w1 w2 -> extends w2 w3 -> extends w1 w3.
Proof.
  intros [[e1 He1] [[l1 Hl1] Hs1]] [[e2 He2] [[l2 Hl2] Hs2]].
  repeat split.
  - exists (e1 ++ e2)%list. now rewrite He2, He1, app_assoc.
  - exists (l1 ++ l2)%list. now rewrite Hl2, Hl1, app_assoc.
  - now apply Nat.le_trans with (spawned w2).
Qed.

Lemma extends_emit e w : extends w (emit e w).
Proof.
  repeat split; simpl.
  - now exists [e].
  - exists []. now rewrite app_nil_r.
  - apply Nat.le_refl.
Qed.

Lemma extends_defer e w : extends w (defer e w).
Proof.
  repeat split; simpl.
  - exists []. now rewrite app_nil_r.
  - now exists [e].
  - apply Nat.le_refl.
Qed.

Lemma extends_exec command cwd w : extends w (snd (exec env command cwd w)).
Proof.
  unfold exec.
  destruct (spawnResult env (spawned w) command cwd) as [proc|e];
    [|apply extends_refl].
  repeat split; simpl.
  - now eexists.
  - exists []. now rewrite app_nil_r.
  - apply Nat.le_succ_diag_r.
Qed.

(** The three ways [launchCommand] can go. *)
Lemma launchCommand_cases appPath appArgs mappings w :
  (exists e,
      createCommand env appPath appArgs mappings = Throw e
      /\ launchCommand env appPath appArgs mappings w = (Throw e, w))
  \/ (exists command e,
         createCommand env appPath appArgs mappings = Normal command
         /\ spawnOf env command w = Throw e
         /\ launchCommand env appPath appArgs mappings w = (Throw e, w))
  \/ (exists command proc,
         createCommand env appPath appArgs mappings = Normal command
         /\ spawnOf env command w = Normal proc
         /\ launchCommand env appPath appArgs mappings w
            = (Normal (exitPromise proc),
               {| events :=
                    (events w ++
                     [Exec (Command.command command) (Command.cwd command)
                        proc;
                      LogProcessOutput proc;
                      Log logSource
                        (LaunchCommandMsg (ChildProcess.pid proc) appPath
                           appArgs command)])%list;
                  later := later w;
                  spawned := S (spawned w) |})).
Proof.
  unfold launchCommand, exec, spawnOf.
  destruct (createCommand env appPath appArgs mappings) as [command|e].
  - right.
    destruct (spawnResult env (spawned w) (Command.command command)
                (Command.cwd command)) as [proc|e] eqn:Hs.
    + right. exists command, proc.
      split; [reflexivity|]. split; [exact Hs|].
      unfold log, logProcessOutput, emit. simpl.
      now rewrite <- !app_assoc.
    + left. exists command, e. split; [reflexivity|]. now split.
  - left. now exists e.
Qed.

(** The three ways the main path of [launchGame] can go. *)
Lemma launchMain_cases opts w :
  (exists e,
      mainCommand env opts = Throw e
      /\ launchMain env opts w
         = (Fulfilled,
            log logSource
              (LaunchGameFailedMsg
                 (IGameInfo.title (LaunchGameOpts.game opts)) e) w))
  \/ (exists command e,
         mainCommand env opts = Normal command
         /\ spawnOf env command w = Throw e
         /\ launchMain env opts w = (Rejected e, w))
  \/ (exists command proc,
         mainCommand env opts = Normal command
         /\ spawnOf env command w = Normal proc
         /\ launchMain env opts w
            = (Fulfilled,
               {| events :=
                    (events w ++
                     [Exec (Command.command command) (Command.cwd command)
                        proc;
                      LogProcessOutput proc;
                      Log logSource
                        (LaunchGameMsg
                           (IGameInfo.title (LaunchGameOpts.game opts))
                           (ChildProcess.pid proc)
                           (IGameInfo.applicationPath
                              (LaunchGameOpts.game opts))
                           (IGameInfo.launchCommand
                              (LaunchGameOpts.game opts)) command)])%list;
                  later := later w;
                  spawned := S (spawned w) |})).
Proof.
  unfold launchMain, mainCommand, exec, spawnOf.
  destruct (createCommand env _ _ _) as [command|e].
  - right.
    destruct (spawnResult env (spawned w) (Command.command command)
                (Command.cwd command)) as [proc|e] eqn:Hs.
    + right. exists command, proc.
      split; [reflexivity|]. split; [exact Hs|].
      unfold log, logProcessOutput, emit. simpl.
      now rewrite <- !app_assoc.
    + left. exists command, e. split; [reflexivity|]. now split.
  - left. now exists e.
Qed.

(** The three ways [launchGameSetup] can go. *)
Lemma launchGameSetup_cases opts w :
  (exists e,
      setupCommand env opts = Throw e
      /\ launchGameSetup env opts w = (Rejected e, w))
  \/ (exists command e,
         setupCommand env opts = Normal command
         /\ spawnOf env command w = Throw e
         /\ launchGameSetup env opts w = (Rejected e, w))
  \/ (exists command proc,
         setupCommand env opts = Normal command
         /\ spawnOf env command w = Normal proc
         /\ launchGameSetup env opts w
            = (Fulfilled,
               {| events :=
                    (events w ++
                     [Exec (Command.command command) (Command.cwd command)
                        proc;
                      LogProcessOutput proc;
                      Log logSource
                        (LaunchGameSetupMsg
                           (IGameInfo.title (LaunchGameOpts.game opts))
                           (ChildProcess.pid proc)
                           (IGameInfo.applicationPath
                              (LaunchGameOpts.game opts))
                           (IGameInfo.launchCommand
                              (LaunchGameOpts.game opts)) command)])%list;
                  later := later w;
                  spawned := S (spawned w) |})).
Proof.
  unfold launchGameSetup, setupCommand, exec, spawnOf.
  destruct (createCommand env _ _ _) as [command|e].
  - right.
    destruct (spawnResult env (spawned w) (Command.command command)
                (Command.cwd command)) as [proc|e] eqn:Hs.
    + right. exists command, proc.
      split; [reflexivity|]. split; [exact Hs|].
      unfold log, logProcessOutput, emit. simpl.
      now rewrite <- !app_assoc.
    + left. exists command, e. split; [reflexivity|]. now split.
  - left. now exists e.
Qed.

Lemma awaits_snoc tr e :
  awaits (tr ++ [e]) = (awaits tr ++ if isAwait e then [e] else [])%list.
Proof.
  unfold awaits. rewrite filter_app. simpl. now destruct (isAwait e).
Qed.

Lemma awaits_emit e w :
  isAwait e = false -> awaits (events (emit e w)) = awaits (events w).
Proof.
  intros He. simpl. rewrite awaits_snoc, He. apply app_nil_r.
Qed.

Lemma handleSpecial_extends ap lc fp oe w :
  extends w (snd (handleSpecialApplicationPath env ap lc fp oe w)).
Proof.
  unfold handleSpecialApplicationPath.
  destruct (ap =? ":message:"); [apply extends_emit|].
  destruct (ap =? ":extras:"); [|apply extends_refl]. simpl.
  eapply extends_trans; [apply extends_emit|].
  destruct (oe _ true) as [|error|]; try apply extends_refl.
  destruct (truthy error); [apply extends_defer | apply extends_refl].
Qed.

Lemma handleSpecial_awaits ap lc fp oe w :
  awaits (events (snd (handleSpecialApplicationPath env ap lc fp oe w)))
  = awaits (events w).
Proof.
  unfold handleSpecialApplicationPath.
  destruct (ap =? ":message:"); [now apply awaits_emit|].
  destruct (ap =? ":extras:"); [|reflexivity]. simpl snd.
  assert (Hev : forall w0 : World,
             events
               match oe (fixSlashes env
                           (path_join env fp (PosixPath.join "Extras" lc)))
                       true with
               | Rejected error =>
                   if truthy error
                   then defer
                          (OpenDialog
                             {| MessageBoxOptions.type := "error";
                                MessageBoxOptions.title :=
                                  "Failed to Open Extras";
                                MessageBoxOptions.message :=
                                  toString error ++ newline ++ "Path: "
                                    ++ fixSlashes env
                                         (path_join env fp
                                            (PosixPath.join "Extras" lc));
                                MessageBoxOptions.buttons := ["Ok"] |}) w0
                   else w0
               | _ => w0
               end = events w0).
  { intros w0. destruct (oe _ true) as [|error|]; try reflexivity.
    now destruct (truthy error). }
  rewrite Hev. now apply awaits_emit.
Qed.

Lemma launchCommand_extends appPath appArgs mappings w :
  extends w (snd (launchCommand env appPath appArgs mappings w)).
Proof.
  destruct (launchCommand_cases appPath appArgs mappings w)
    as [(e & _ & ->)|[(command & e & _ & _ & ->)
                     |(command & proc & _ & _ & ->)]];
    try apply extends_refl.
  repeat split; simpl.
  - now eexists.
  - exists []. now rewrite app_nil_r.
  - apply Nat.le_succ_diag_r.
Qed.

Lemma launchCommand_awaits appPath appArgs mappings w :
  awaits (events (snd (launchCommand env appPath appArgs mappings w)))
  = awaits (events w).
Proof.
  destruct (launchCommand_cases appPath appArgs mappings w)
    as [(e & _ & ->)|[(command & e & _ & _ & ->)
                     |(command & proc & _ & _ & ->)]];
    try reflexivity.
  simpl. unfold awaits. now rewrite filter_app, app_nil_r.
Qed.

Lemma launchAdditionalApplication_extends opts w :
  extends w (snd (launchAdditionalApplication env opts w)).
Proof.
  unfold launchAdditionalApplication.
  pose proof (handleSpecial_extends
                (IAdditionalApplicationInfo.applicationPath
                   (LaunchAddAppOpts.addApp opts))
                (IAdditionalApplicationInfo.launchCommand
                   (LaunchAddAppOpts.addApp opts))
                (LaunchAddAppOpts.fpPath opts)
                (LaunchAddAppOpts.openExternal opts) w) as Hh.
  destruct (handleSpecialApplicationPath env _ _ _ _ w) as [handled w1].
  simpl in Hh. destruct handled; simpl; [exact Hh|].
  match goal with
  | |- context [launchCommand env ?a ?b ?c w1] =>
      pose proof (launchCommand_extends a b c w1) as Hl;
      destruct (launchCommand env a b c w1) as [c0 w2]
  end.
  simpl in *. now apply extends_trans with w1.
Qed.

Lemma launchAdditionalApplication_awaits opts w :
  awaits (events (snd (launchAdditionalApplication env opts w)))
  = awaits (events w).
Proof.
  unfold launchAdditionalApplication.
  pose proof (handleSpecial_awaits
                (IAdditionalApplicationInfo.applicationPath
                   (LaunchAddAppOpts.addApp opts))
                (IAdditionalApplicationInfo.launchCommand
                   (LaunchAddAppOpts.addApp opts))
                (LaunchAddAppOpts.fpPath opts)
                (LaunchAddAppOpts.openExternal opts) w) as Hh.
  destruct (handleSpecialApplicationPath env _ _ _ _ w) as [handled w1].
  simpl in Hh. destruct handled; simpl; [exact Hh|].
  match goal with
  | |- context [launchCommand env ?a ?b ?c w1] =>
      pose proof (launchCommand_awaits a b c w1) as Hl;
      destruct (launchCommand env a b c w1) as [c0 w2]
  end.
  simpl in *. now rewrite Hl.
Qed.

Lemma launchMain_extends opts w : extends w (snd (launchMain env opts w)).
Proof.
  destruct (launchMain_cases opts w)
    as [(e & _ & ->)|[(command & e & _ & _ & ->)
                     |(command & proc & _ & _ & ->)]].
  - apply extends_emit.
  - apply extends_refl.
  - repeat split; simpl.
    + now eexists.
    + exists []. now rewrite app_nil_r.
    + apply Nat.le_succ_diag_r.
Qed.

Lemma launchMain_awaits opts w :
  awaits (events (snd (launchMain env opts w))) = awaits (events w).
Proof.
  destruct (launchMain_cases opts w)
    as [(e & _ & ->)|[(command & e & _ & _ & ->)
                     |(command & proc & _ & _ & ->)]].
  - simpl. now rewrite awaits_snoc, app_nil_r.
  - reflexivity.
  - simpl. unfold awaits. now rewrite filter_app, app_nil_r.
Qed.


End LauncherFacts.

(* ================================================================== *)
(** ** The loop over the additional applications *)

Section PreRunLoop.

Context (env : Env) (opts : LaunchGameOpts.t).

Import GameLauncher.

Local Abbreviation run := (runAutoRunBefore env opts).
Local Abbreviation launch a :=
  (launchAdditionalApplication env (addAppOpts opts a)).

Lemma run_skip a rest w :
  IAdditionalApplicationInfo.autoRunBefore a = false ->
  run (a :: rest) w = run rest w.
Proof. intros Ha. simpl. now rewrite Ha. Qed.

Lemma run_not_awaited a rest w :
  IAdditionalApplicationInfo.autoRunBefore a = true ->
  IAdditionalApplicationInfo.waitForExit a = false ->
  run (a :: rest) w = run rest (snd (launch a w)).
Proof.
  intros Ha Hw. simpl. rewrite Ha. destruct (launch a w) as [p w1].
  now rewrite Hw.
Qed.

Lemma run_awaited a rest w :
  IAdditionalApplicationInfo.autoRunBefore a = true ->
  IAdditionalApplicationInfo.waitForExit a = true ->
  run (a :: rest) w
  = match fst (launch a w) with
    | Fulfilled => run rest (emit (Await Fulfilled) (snd (launch a w)))
    | p => (Some p, emit (Await p) (snd (launch a w)))
    end.
Proof.
  intros Ha Hw. simpl. rewrite Ha. destruct (launch a w) as [p w1].
  rewrite Hw. now destruct p.
Qed.

Lemma run_app l1 l2 w :
  run (l1 ++ l2) w
  = match run l1 w with
    | (None, w1) => run l2 w1
    | (Some p, w1) => (Some p, w1)
    end.
Proof.
  revert w. induction l1 as [|a l1 IH]; intros w; [reflexivity|].
  simpl. destruct (IAdditionalApplicationInfo.autoRunBefore a); [|apply IH].
  destruct (launch a w) as [p w1].
  destruct (IAdditionalApplicationInfo.waitForExit a); [|apply IH].
  destruct p; [apply IH | reflexivity | reflexivity].
Qed.

Lemma run_preRun l w : run l w = run (preRun l) w.
Proof.
  revert w. induction l as [|a l IH]; intros w; [reflexivity|].
  unfold preRun. simpl filter.
  destruct (IAdditionalApplicationInfo.autoRunBefore a) eqn:Ha.
  - simpl. rewrite Ha. destruct (launch a w) as [p w1].
    destruct (IAdditionalApplicationInfo.waitForExit a); [|apply IH].
    destruct p; [apply IH | reflexivity | reflexivity].
  - rewrite run_skip by exact Ha. apply IH.
Qed.

Lemma run_extends l w : extends w (snd (run l w)).
Proof.
  revert w. induction l as [|a l IH]; intros w; [apply extends_refl|].
  simpl. destruct (IAdditionalApplicationInfo.autoRunBefore a); [|apply IH].
  pose proof (launchAdditionalApplication_extends env (addAppOpts opts a) w)
    as Hl.
  destruct (launch a w) as [p w1]. simpl in Hl.
  destruct (IAdditionalApplicationInfo.waitForExit a).
  - assert (Hw : extends w (emit (Await p) w1))
      by (eapply extends_trans; [exact Hl | apply extends_emit]).
    destruct p; simpl; try exact Hw.
    eapply extends_trans; [exact Hw | apply IH].
  - eapply extends_trans; [exact Hl | apply IH].
Qed.


(** Without an awaited entry the loop always runs to its end and never
    suspends. *)
Lemma run_no_waited l w :
  (forall a, In a l -> waited a = false) ->
  fst (run l w) = None
  /\ awaits (events (snd (run l w))) = awaits (events w).
Proof.
  revert w. induction l as [|a l IH]; intros w Hno; [now split|].
  assert (Hl : forall b, In b l -> waited b = false)
    by (intros b Hb; apply Hno; now right).
  assert (Ha : waited a = false) by (apply Hno; now left).
  unfold waited in Ha.
  destruct (IAdditionalApplicationInfo.autoRunBefore a) eqn:Hb.
  - simpl in Ha. rewrite run_not_awaited by assumption.
    destruct (IH (snd (launch a w)) Hl) as [H1 H2]. split; [exact H1|].
    now rewrite H2, launchAdditionalApplication_awaits.
  - rewrite run_skip by assumption. now apply IH.
Qed.

Lemma launchGame_afterPreRun l w :
  IGameInfo.placeholder (LaunchGameOpts.game opts) = false ->
  LaunchGameOpts.addApps opts = Some l ->
  launchGame env opts w = afterPreRun env opts (run l w).
Proof.
  intros Hp Hl. unfold launchGame, afterPreRun. rewrite Hp, Hl.
  now destruct (run l w) as [[p|] w1].
Qed.

End PreRunLoop.

(* ================================================================== *)
(** ** Properties of the launch orchestrator *)

(** C8. For a placeholder game [launchGame] does nothing: the world is
    left as it was (no process, no additional application, no log entry, no
    dialog, nothing queued) and the promise is fulfilled at once, whatever
    the other options are. *)
Theorem C8_placeholder_noop :
  forall (env : Env) (opts : LaunchGameOpts.t) (w : World),
    IGameInfo.placeholder (LaunchGameOpts.game opts) = true ->
    GameLauncher.launchGame env opts w = (Fulfilled, w).
Proof.
  intros env opts w Hp. unfold GameLauncher.launchGame. now rewrite Hp.
Qed.

Lemma C8_placeholder_noop_witness :
  GameLauncher.launchGame Sample.linux
    (Sample.gameOpts
       {| IGameInfo.title := "Doom";
          IGameInfo.applicationPath := "eXo/eXoDOS/doom/doom.bat";
          IGameInfo.launchCommand := "";
          IGameInfo.placeholder := true |}
       (Some [Sample.addApp "setup.exe" "" true true]))
    Sample.world0
  = (Fulfilled, Sample.world0).
Proof. apply C8_placeholder_noop. reflexivity. Defined.

(** C6. For an additional application whose path is exactly [:message:],
    [launchAdditionalApplication] calls the dialog once, with the
    application's launch command as the message, the title
    [About This Game] and the single button [Ok], and its promise is
    fulfilled; it starts no process and queues nothing, and neither the
    collection root, the exec mappings, the [native] flag, the command
    mappings nor the host take part in the result. *)
Theorem C6_message_pseudo_path :
  forall (env : Env) (opts : LaunchAddAppOpts.t) (w : World),
    IAdditionalApplicationInfo.applicationPath (LaunchAddAppOpts.addApp opts)
    = ":message:" ->
    GameLauncher.launchAdditionalApplication env opts w
    = (Fulfilled,
       {| events :=
            (events w ++
             [OpenDialog
                {| MessageBoxOptions.type := "info";
                   MessageBoxOptions.title := "About This Game";
                   MessageBoxOptions.message :=
                     IAdditionalApplicationInfo.launchCommand
                       (LaunchAddAppOpts.addApp opts);
                   MessageBoxOptions.buttons := ["Ok"] |}])%list;
          later := later w;
          spawned := spawned w |})
    /\ forall (env' : Env) (opts' : LaunchAddAppOpts.t),
         LaunchAddAppOpts.addApp opts' = LaunchAddAppOpts.addApp opts ->
         GameLauncher.launchAdditionalApplication env' opts' w
         = GameLauncher.launchAdditionalApplication env opts w.
Proof.
  intros env opts w Hp.
  assert (Hrun : forall env0 opts0,
             LaunchAddAppOpts.addApp opts0 = LaunchAddAppOpts.addApp opts ->
             GameLauncher.launchAdditionalApplication env0 opts0 w
             = (Fulfilled,
                GameLauncher.emit
                  (OpenDialog
                     {| MessageBoxOptions.type := "info";
                        MessageBoxOptions.title := "About This Game";
                        MessageBoxOptions.message :=
                          IAdditionalApplicationInfo.launchCommand
                            (LaunchAddAppOpts.addApp opts);
                        MessageBoxOptions.buttons := ["Ok"] |}) w)).
  { intros env0 opts0 Hsame.
    unfold GameLauncher.launchAdditionalApplication,
      GameLauncher.handleSpecialApplicationPath.
    now rewrite Hsame, Hp. }
  split.
  - now rewrite (Hrun env opts eq_refl).
  - intros env' opts' Hsame.
    now rewrite (Hrun env' opts' Hsame), (Hrun env opts eq_refl).
Qed.

Lemma C6_message_pseudo_path_witness :
  GameLauncher.launchAdditionalApplication Sample.linux
    (Sample.addAppOpts (Sample.addApp ":message:" "Hello" false false)
       Sample.openExternalOk)
    Sample.world0
  = (Fulfilled,
     {| events :=
          [OpenDialog
             {| MessageBoxOptions.type := "info";
                MessageBoxOptions.title := "About This Game";
                MessageBoxOptions.message := "Hello";
                MessageBoxOptions.buttons := ["Ok"] |}];
        later := [];
        spawned := 0 |}).
Proof.
  apply (proj1 (C6_message_pseudo_path Sample.linux
                  (Sample.addAppOpts
                     (Sample.addApp ":message:" "Hello" false false)
                     Sample.openExternalOk)
                  Sample.world0 eq_refl)).
Defined.

(** C7, as the code has it.  For an additional application whose path is
    exactly [:extras:], [launchAdditionalApplication] starts no process; it
    calls the open-externally capability once on
    [fixSlashes(path.join(fpPath, path.posix.join("Extras", launchCommand)))]
    and its promise is fulfilled.  When that capability rejects with a
    truthy reason, the dialog is called later with an error whose message
    contains the reason's text and the resolved path; when it fulfils, never
    settles, or rejects with a falsy reason, no dialog follows. *)
Theorem C7_extras_pseudo_path :
  forall (env : Env) (opts : LaunchAddAppOpts.t) (w : World),
    IAdditionalApplicationInfo.applicationPath (LaunchAddAppOpts.addApp opts)
    = ":extras:" ->
    let folderPath :=
      fixSlashes env
        (path_join env (LaunchAddAppOpts.fpPath opts)
           (PosixPath.join "Extras"
              (IAdditionalApplicationInfo.launchCommand
                 (LaunchAddAppOpts.addApp opts)))) in
    let outcome := LaunchAddAppOpts.openExternal opts folderPath true in
    exists w',
      GameLauncher.launchAdditionalApplication env opts w = (Fulfilled, w')
      /\ events w' = (events w ++ [OpenExternal folderPath true])%list
      /\ spawned w' = spawned w
      /\ (forall error,
            outcome = Rejected error -> truthy error = true ->
            exists text,
              later w'
              = (later w ++
                 [OpenDialog
                    {| MessageBoxOptions.type := "error";
                       MessageBoxOptions.title := "Failed to Open Extras";
                       MessageBoxOptions.message := text;
                       MessageBoxOptions.buttons := ["Ok"] |}])%list
              /\ Contains text (toString error)
              /\ Contains text folderPath)
      /\ ((outcome = Fulfilled \/ outcome = Pending
           \/ exists error, outcome = Rejected error /\ truthy error = false)
          -> later w' = later w).
Proof.
  intros env opts w Hp folderPath outcome.
  unfold GameLauncher.launchAdditionalApplication,
    GameLauncher.handleSpecialApplicationPath.
  rewrite Hp. simpl (":extras:" =? ":message:").
  simpl (":extras:" =? ":extras:"). cbv iota.
  fold folderPath. fold outcome.
  destruct outcome as [|error|] eqn:Hout.
  - eexists. repeat split; try reflexivity.
    intros error Herr. discriminate.
  - destruct (truthy error) eqn:Htruthy.
    + eexists. repeat split; try reflexivity.
      * intros error' Herr _. inversion Herr; subst error'.
        eexists. split; [reflexivity|]. split.
        -- exists "", (newline ++ "Path: " ++ folderPath). reflexivity.
        -- exists (toString error ++ newline ++ "Path: "), "".
           rewrite app_string_nil_r.
           now rewrite (app_string_assoc (toString error)),
             (app_string_assoc newline).
      * intros [H|[H|[error' [H Hfalsy]]]]; try discriminate.
        inversion H; subst error'. congruence.
    + eexists. repeat split; try reflexivity.
      intros error' Herr Ht. inversion Herr; subst error'. congruence.
  - eexists. repeat split; try reflexivity.
    intros error Herr. discriminate.
Qed.

Lemma C7_extras_pseudo_path_witness :
  exists w',
    GameLauncher.launchAdditionalApplication Sample.linux
      (Sample.addAppOpts (Sample.addApp ":extras:" "manual.pdf" false false)
         (fun _ _ => Rejected (JsError "Error" "no handler")))
      Sample.world0 = (Fulfilled, w')
    /\ events w' = [OpenExternal "/eXo/Extras/manual.pdf" true]
    /\ spawned w' = 0
    /\ exists text,
         later w'
         = [OpenDialog
              {| MessageBoxOptions.type := "error";
                 MessageBoxOptions.title := "Failed to Open Extras";
                 MessageBoxOptions.message := text;
                 MessageBoxOptions.buttons := ["Ok"] |}]
         /\ Contains text "Error: no handler"
         /\ Contains text "/eXo/Extras/manual.pdf".
Proof.
  destruct (C7_extras_pseudo_path Sample.linux
              (Sample.addAppOpts
                 (Sample.addApp ":extras:" "manual.pdf" false false)
                 (fun _ _ => Rejected (JsError "Error" "no handler")))
              Sample.world0 eq_refl)
    as (w' & Hrun & Hev & Hsp & Hrej & _).
  exists w'. repeat split; try assumption.
  exact (Hrej (JsError "Error" "no handler") eq_refl eq_refl).
Defined.

(** C7 as stated fails: when the open-externally capability rejects with a
    falsy reason (here [undefined]), the guard [if (error)] skips the
    dialog, so this failure is followed by no dialog at all. *)
Lemma C7_counterexample :
  GameLauncher.launchAdditionalApplication Sample.linux
    (Sample.addAppOpts (Sample.addApp ":extras:" "manual.pdf" false false)
       (fun _ _ => Rejected JsUndefined))
    Sample.world0
  = (Fulfilled,
     {| events := [OpenExternal "/eXo/Extras/manual.pdf" true];
        later := [];
        spawned := 0 |}).
Proof. vm_compute. reflexivity. Qed.

Lemma execCommands_snoc (tr : list Event) (e : Event) :
  execCommands (tr ++ [e])
  = (execCommands tr ++ match e with Exec c _ _ => [c] | _ => [] end)%list.
Proof.
  unfold execCommands. rewrite flat_map_app. simpl. now rewrite app_nil_r.
Qed.

(** C2, as the code has it.  For a game that is not a placeholder and a
    list [l] of additional applications:
    - [launchGame] behaves as if only the entries flagged [autoRunBefore]
      were in the list;
    - these are launched in list order: the entry after a prefix [l1] is
      launched in the world the loop over [l1] left behind; when it is
      flagged [waitForExit] the launcher suspends on its promise right after
      the launch, goes on with the rest of the list and the game only when
      that promise is fulfilled, and otherwise (promise rejected or never
      settled) starts nothing more and ends with that promise's outcome;
      when it is not flagged [waitForExit] the loop goes on at once, whatever
      becomes of its promise;
    - without an entry flagged both ways there is no suspension at all and
      the game is always reached;
    - the main path never suspends and undoes nothing: when the command
      cannot be built it logs the failure and the promise is fulfilled; when
      it is built and [exec] returns a process, exactly that process is
      started, with the built command line, and the promise is fulfilled
      without waiting for the process; when [exec] throws instead, nothing
      is started and the promise rejects with what was thrown. *)
Theorem C2_pre_run_sequence :
  forall (env : Env) (opts : LaunchGameOpts.t)
         (l : list IAdditionalApplicationInfo.t) (w : World),
    IGameInfo.placeholder (LaunchGameOpts.game opts) = false ->
    LaunchGameOpts.addApps opts = Some l ->
    GameLauncher.launchGame env opts w
    = afterPreRun env opts
        (GameLauncher.runAutoRunBefore env opts (preRun l) w)
    /\ (forall l1 a l2 w1,
          l = (l1 ++ a :: l2)%list ->
          IAdditionalApplicationInfo.autoRunBefore a = true ->
          GameLauncher.runAutoRunBefore env opts l1 w = (None, w1) ->
          let started :=
            GameLauncher.launchAdditionalApplication env
              (GameLauncher.addAppOpts opts a) w1 in
          extends w w1
          /\ GameLauncher.launchGame env opts w
             = if IAdditionalApplicationInfo.waitForExit a then
                 match fst started with
                 | Fulfilled =>
                     afterPreRun env opts
                       (GameLauncher.runAutoRunBefore env opts l2
                          (GameLauncher.emit (Await Fulfilled) (snd started)))
                 | p => (p, GameLauncher.emit (Await p) (snd started))
                 end
               else
                 afterPreRun env opts
                   (GameLauncher.runAutoRunBefore env opts l2 (snd started)))
    /\ (forall l1 l2 p w1,
          l = (l1 ++ l2)%list ->
          GameLauncher.runAutoRunBefore env opts l1 w = (Some p, w1) ->
          GameLauncher.launchGame env opts w = (p, w1))
    /\ ((forall a, In a l -> waited a = false) ->
        exists w',
          GameLauncher.runAutoRunBefore env opts l w = (None, w')
          /\ awaits (events w') = awaits (events w)
          /\ GameLauncher.launchGame env opts w
             = GameLauncher.launchMain env opts w')
    /\ (forall w',
          awaits (events (snd (GameLauncher.launchMain env opts w')))
          = awaits (events w')
          /\ extends w' (snd (GameLauncher.launchMain env opts w'))
          /\ (forall e,
                mainCommand env opts = Throw e ->
                GameLauncher.launchMain env opts w'
                = (Fulfilled,
                   GameLauncher.log GameLauncher.logSource
                     (LaunchGameFailedMsg
                        (IGameInfo.title (LaunchGameOpts.game opts)) e) w'))
          /\ (forall command proc,
                mainCommand env opts = Normal command ->
                spawnOf env command w' = Normal proc ->
                fst (GameLauncher.launchMain env opts w') = Fulfilled
                /\ spawned (snd (GameLauncher.launchMain env opts w'))
                   = S (spawned w')
                /\ execCommands
                     (events (snd (GameLauncher.launchMain env opts w')))
                   = (execCommands (events w')
                      ++ [Command.command command])%list)
          /\ (forall command e,
                mainCommand env opts = Normal command ->
                spawnOf env command w' = Throw e ->
                GameLauncher.launchMain env opts w' = (Rejected e, w')))
    /\ extends w (snd (GameLauncher.launchGame env opts w)).
Proof.
  intros env opts l w Hp Hl.
  pose proof (launchGame_afterPreRun env opts l w Hp Hl) as Hgame.
  split; [now rewrite Hgame, run_preRun|].
  split.
  { intros l1 a l2 w1 -> Ha Hl1 started. split.
    - pose proof (run_extends env opts l1 w) as He. now rewrite Hl1 in He.
    - rewrite Hgame, run_app, Hl1. subst started.
      destruct (IAdditionalApplicationInfo.waitForExit a) eqn:Hw.
      + rewrite run_awaited by assumption.
        now destruct (fst (GameLauncher.launchAdditionalApplication env
                             (GameLauncher.addAppOpts opts a) w1)).
      + now rewrite run_not_awaited by assumption. }
  split.
  { intros l1 l2 p w1 -> Hl1. now rewrite Hgame, run_app, Hl1. }
  split.
  { intros Hno. destruct (run_no_waited env opts l w Hno) as [Hfst Haw].
    destruct (GameLauncher.runAutoRunBefore env opts l w) as [r w'] eqn:Hrun.
    simpl in Hfst, Haw. subst r. exists w'.
    split; [reflexivity|]. split; [exact Haw | exact Hgame]. }
  split.
  { intros w'. split; [apply launchMain_awaits|].
    split; [apply launchMain_extends|].
    destruct (launchMain_cases env opts w')
      as [(e & Hc & Hr)|[(command & e & Hc & Hs & Hr)
                        |(command & proc & Hc & Hs & Hr)]];
      rewrite Hr, Hc; (split; [|split]).
    - intros e' He'. now inversion He'.
    - intros command proc Hc'. discriminate.
    - intros command e' Hc'. discriminate.
    - intros e' He'. discriminate.
    - intros command' proc Hc' Hs'. inversion Hc'; subst command'.
      rewrite Hs in Hs'. discriminate.
    - intros command' e' Hc' Hs'. inversion Hc'; subst command'.
      rewrite Hs in Hs'. now inversion Hs'.
    - intros e' He'. discriminate.
    - intros command' proc' Hc' Hs'. inversion Hc'; subst command'.
      rewrite Hs in Hs'. inversion Hs'; subst proc'. simpl.
      repeat split. unfold execCommands. now rewrite flat_map_app.
    - intros command' e' Hc' Hs'. inversion Hc'; subst command'.
      rewrite Hs in Hs'. discriminate. }
  rewrite Hgame.
  pose proof (run_extends env opts l w) as He.
  destruct (GameLauncher.runAutoRunBefore env opts l w) as [[p|] w1];
    simpl in *; [exact He|].
  eapply extends_trans; [exact He | apply launchMain_extends].
Qed.

Lemma C2_pre_run_sequence_witness :
  execCommands
    (events
       (snd
          (GameLauncher.launchGame Sample.linux
             (Sample.gameOpts (Sample.game "doom.exe")
                (Some [Sample.addApp "a.exe" "" true true;
                       Sample.addApp "skip.exe" "" false true;
                       Sample.addApp "tool.exe" "-x" true false]))
             Sample.world0)))
  = ["xdg-open /eXo/a.exe "; "xdg-open /eXo/tool.exe -x";
     "xdg-open /eXo/doom.exe "].
Proof.
  rewrite (proj1 (C2_pre_run_sequence Sample.linux
                    (Sample.gameOpts (Sample.game "doom.exe")
                       (Some [Sample.addApp "a.exe" "" true true;
                              Sample.addApp "skip.exe" "" false true;
                              Sample.addApp "tool.exe" "-x" true false]))
                    _ Sample.world0 eq_refl eq_refl)).
  reflexivity.
Defined.

(** C2 as stated fails: the first entry is flagged [autoRunBefore] and
    [waitForExit] and its process cannot be spawned (its directory does not
    exist), so the awaited promise rejects; [launchGame] rejects with it, the second flagged entry is never
    launched and the game is never spawned. *)
Lemma C2_counterexample :
  let run :=
    GameLauncher.launchGame Sample.linux
      (Sample.gameOpts (Sample.game "doom.exe")
         (Some [Sample.addApp "missing/setup.exe" "" true true;
                Sample.addApp "tool.exe" "-x" true false]))
      Sample.world0 in
  fst run = Rejected Sample.ENOENT
  /\ execCommands (events (snd run)) = ["xdg-open /eXo/missing/setup.exe "]
  /\ awaits (events (snd run)) = [Await (Rejected Sample.ENOENT)].
Proof. cbv zeta. repeat split; vm_compute; reflexivity. Qed.




(** C3 at a failing input.  For the application path [eXo/doom/doom] the
    filename component is [doom]; [String.prototype.replace] rewrites the
    first occurrence of that text, which is the directory, so the set-up
    path is [eXo/install.command/doom] and not [eXo/doom/install.command],
    and the process that is started is the game itself under a directory
    that was never named.  (Where the filename's text does not occur
    earlier in the path, as in [eXo/eXoDOS/doom/doom.bat], the component is
    replaced as intended.) *)
Theorem C3_setup_path_first_occurrence :
  let applicationPath := "eXo/doom/doom" in
  let run :=
    GameLauncher.launchGameSetup Sample.linux
      (Sample.gameOpts (Sample.game applicationPath) None) Sample.world0 in
  getFilename applicationPath = "doom"
  /\ JsString.replace applicationPath (getFilename applicationPath)
       "install.command" = "eXo/install.command/doom"
  /\ JsString.replace applicationPath (getFilename applicationPath)
       "install.command" <> "eXo/doom/install.command"
  /\ fst run = Fulfilled
  /\ execCommands (events (snd run))
     = ["xdg-open /eXo/eXo/install.command/doom "]
  /\ JsString.replace "eXo/eXoDOS/doom/doom.bat"
       (getFilename "eXo/eXoDOS/doom/doom.bat") "install.command"
     = "eXo/eXoDOS/doom/install.command".
Proof. cbv zeta. repeat split; vm_compute; (reflexivity || discriminate). Qed.

(* ================================================================== *)
(** ** Start-up *)

(** C9. When [readJsonFile] fails on the platform-named mappings file
    (missing or unparseable), [initialize] writes one message to the
    console, naming the file and the failure, leaves
    [state.commandMappings] at the table it had from the start (the empty
    default mapping and no extension rules), and goes on with the rest of
    the start-up in that state. *)
Theorem C9_missing_mappings_file :
  forall (Preferences Config : Type) (platform : Platform)
         (path_join : string -> string -> string)
         (parseInitArgs : string -> Completion Back.BackInitArgs)
         (readPreferences : string -> Completion Preferences)
         (readConfig : string -> Completion Config)
         (readJsonFile : string -> Completion IAppCommandsMappingData.t)
         (restOfStartup :
            @Back.BackState Preferences Config
            -> Completion unit * @Back.BackState Preferences Config)
         (message : string) (content : Back.BackInitArgs)
         (prefs : Preferences) (cfg : Config) (e : JsValue),
    parseInitArgs message = Normal content ->
    readPreferences
      (path_join (Back.arg_configFolder content) "preferences.json")
    = Normal prefs ->
    readConfig (path_join (Back.arg_configFolder content) "config.json")
    = Normal cfg ->
    readJsonFile
      (path_join (Back.arg_basePath content)
         ("mappings." ++ platform ++ ".json")) = Throw e ->
    exists s' text,
      Back.initialize platform path_join parseInitArgs readPreferences
        readConfig readJsonFile restOfStartup message Back.state
      = restOfStartup s'
      /\ Back.commandMappings s'
         = {| IAppCommandsMappingData.defaultMapping := EmptyCommandMapping;
              IAppCommandsMappingData.commandsMapping := [] |}
      /\ ICommandMapping.command
           (IAppCommandsMappingData.defaultMapping (Back.commandMappings s'))
         = ""
      /\ Back.console s' = [(Back.ConsoleError, text)]
      /\ Contains text ("mappings." ++ platform ++ ".json")
      /\ Contains text (toString e).
Proof.
  intros Preferences Config platform path_join parseInitArgs readPreferences
    readConfig readJsonFile restOfStartup message content prefs cfg e
    Hparse Hprefs Hcfg Hjson.
  unfold Back.initialize. simpl Back.isInitialized. cbv iota.
  unfold Back.preferencesFilename, Back.configFilename.
  rewrite Hparse, Hprefs, Hcfg.
  unfold Back.loadCommandMappings, Back.commandMappingsFilename.
  rewrite Hjson.
  set (tail := ". Check if file exists and have valid values. "
               ++ "Without that file most of the entries won't work.").
  set (file := "mappings." ++ platform ++ ".json").
  eexists. eexists. split; [reflexivity|].
  split; [reflexivity|]. split; [reflexivity|]. split; [reflexivity|].
  split.
  - exists ("Cannot load mappings file " ++ dquote),
      (dquote ++ ". " ++ toString e ++ tail).
    now rewrite ?app_string_assoc.
  - exists ("Cannot load mappings file " ++ dquote ++ file ++ dquote ++ ". "),
      tail.
    now rewrite ?app_string_assoc.
Qed.

Lemma C9_missing_mappings_file_witness :
  exists s' text,
    Back.initialize (Preferences := unit) (Config := unit) "linux"
      PosixPath.join
      (fun _ => Normal (Back.mkInitArgs "s3cret" "/cfg" "/app/exogui" "/app"))
      (fun _ => Normal tt) (fun _ => Normal tt)
      (fun _ => Throw (JsError "Error" "ENOENT: no such file or directory"))
      (fun s => (Normal tt, s)) "{}" Back.state
    = (Normal tt, s')
    /\ Back.commandMappings s'
       = {| IAppCommandsMappingData.defaultMapping := EmptyCommandMapping;
            IAppCommandsMappingData.commandsMapping := [] |}
    /\ Back.console s' = [(Back.ConsoleError, text)]
    /\ Contains text "mappings.linux.json".
Proof.
  destruct (C9_missing_mappings_file unit unit "linux" PosixPath.join
              (fun _ => Normal
                          (Back.mkInitArgs "s3cret" "/cfg" "/app/exogui"
                             "/app"))
              (fun _ => Normal tt) (fun _ => Normal tt)
              (fun _ => Throw (JsError "Error"
                                 "ENOENT: no such file or directory"))
              (fun s => (Normal tt, s)) "{}"
              (Back.mkInitArgs "s3cret" "/cfg" "/app/exogui" "/app") tt tt
              (JsError "Error" "ENOENT: no such file or directory")
              eq_refl eq_refl eq_refl eq_refl)
    as (s' & text & Hrun & Hmap & _ & Hcon & Hfile & _).
  exists s', text. repeat split; assumption.
Defined.

(* ================================================================== *)
(** ** Further properties of the launcher *)



(** X2. When the command of the game itself cannot be built, [launchGame]
    (for a game that is not a placeholder, once the loop over the
    additional applications has run to its end) writes one
    [Launch Game ... failed] entry to the log, starts no process for the
    game, and its promise is fulfilled all the same. *)
Theorem X2_launchGame_build_failure :
  forall (env : Env) (opts : LaunchGameOpts.t) (w w' : World) (e : JsValue),
    IGameInfo.placeholder (LaunchGameOpts.game opts) = false ->
    match LaunchGameOpts.addApps opts with
    | Some l => GameLauncher.runAutoRunBefore env opts l w = (None, w')
    | None => w' = w
    end ->
    createCommand env
      (GameLauncher.resolveApplicationPath env
         (IGameInfo.applicationPath (LaunchGameOpts.game opts))
         (LaunchGameOpts.fpPath opts) (LaunchGameOpts.execMappings opts)
         (LaunchGameOpts.native opts))
      (IGameInfo.launchCommand (LaunchGameOpts.game opts))
      (LaunchGameOpts.mappings opts) = Throw e ->
    GameLauncher.launchGame env opts w
    = (Fulfilled,
       {| events :=
            (events w' ++
             [Log GameLauncher.logSource
                (LaunchGameFailedMsg
                   (IGameInfo.title (LaunchGameOpts.game opts)) e)])%list;
          later := later w';
          spawned := spawned w' |}).
Proof.
  intros env opts w w' e Hp Hloop Hc.
  unfold GameLauncher.launchGame. rewrite Hp.
  destruct (LaunchGameOpts.addApps opts) as [l|].
  - rewrite Hloop. unfold GameLauncher.launchMain. now rewrite Hc.
  - subst w'. unfold GameLauncher.launchMain. now rewrite Hc.
Qed.

Lemma X2_launchGame_build_failure_witness :
  GameLauncher.launchGame Strict.linux
    (Strict.gameOpts (Sample.game "doom.exe") None) Sample.world0
  = (Fulfilled,
     {| events :=
          [Log "Game Launcher" (LaunchGameFailedMsg "Doom" Strict.noDefault)];
        later := [];
        spawned := 0 |}).
Proof.
  apply (X2_launchGame_build_failure Strict.linux
           (Strict.gameOpts (Sample.game "doom.exe") None) Sample.world0
           Sample.world0 Strict.noDefault); reflexivity.
Defined.

(** X3. [launchGameSetup] looks neither at the placeholder flag, nor at the
    additional applications, nor at [openExternal].  Whatever they are:
    when building the command throws, its promise rejects with the thrown
    value and nothing is started or logged; so it does when [exec] throws
    for the built command; and when [exec] returns a process, that process
    is the only one started, for the set-up path, it is logged, and the
    promise is fulfilled. *)
Theorem X3_launchGameSetup_outcome :
  forall (env : Env) (opts : LaunchGameOpts.t) (w : World),
    let game := LaunchGameOpts.game opts in
    let gamePath :=
      GameLauncher.resolveApplicationPath env
        (JsString.replace (IGameInfo.applicationPath game)
           (getFilename (IGameInfo.applicationPath game)) "install.command")
        (LaunchGameOpts.fpPath opts) (LaunchGameOpts.execMappings opts)
        (LaunchGameOpts.native opts) in
    let built :=
      createCommand env gamePath (IGameInfo.launchCommand game)
        (LaunchGameOpts.mappings opts) in
    (forall e,
        built = Throw e ->
        GameLauncher.launchGameSetup env opts w = (Rejected e, w))
    /\ (forall command e,
          built = Normal command ->
          spawnOf env command w = Throw e ->
          GameLauncher.launchGameSetup env opts w = (Rejected e, w))
    /\ (forall command proc,
          built = Normal command ->
          spawnOf env command w = Normal proc ->
          GameLauncher.launchGameSetup env opts w
          = (Fulfilled,
             {| events :=
                  (events w ++
                   [Exec (Command.command command) (Command.cwd command) proc;
                    LogProcessOutput proc;
                    Log GameLauncher.logSource
                      (LaunchGameSetupMsg (IGameInfo.title game)
                         (ChildProcess.pid proc)
                         (IGameInfo.applicationPath game)
                         (IGameInfo.launchCommand game) command)])%list;
                later := later w;
                spawned := S (spawned w) |}))
    /\ (forall placeholder addApps openExternal,
          GameLauncher.launchGameSetup env
            {| LaunchGameOpts.fpPath := LaunchGameOpts.fpPath opts;
               LaunchGameOpts.execMappings := LaunchGameOpts.execMappings opts;
               LaunchGameOpts.mappings := LaunchGameOpts.mappings opts;
               LaunchGameOpts.openExternal := openExternal;
               LaunchGameOpts.game :=
                 {| IGameInfo.title := IGameInfo.title game;
                    IGameInfo.applicationPath :=
                      IGameInfo.applicationPath game;
                    IGameInfo.launchCommand := IGameInfo.launchCommand game;
                    IGameInfo.placeholder := placeholder |};
               LaunchGameOpts.addApps := addApps;
               LaunchGameOpts.native := LaunchGameOpts.native opts |} w
          = GameLauncher.launchGameSetup env opts w).
Proof.
  intros env opts w game gamePath built.
  assert (Hbuilt : built = setupCommand env opts) by reflexivity.
  split; [|split; [|split]].
  - intros e He. rewrite Hbuilt in He.
    destruct (launchGameSetup_cases env opts w)
      as [(e' & Hc & Hr)|[(command & e' & Hc & _ & _)
                         |(command & proc & Hc & _ & _)]];
      rewrite He in Hc; try discriminate.
    now inversion Hc.
  - intros command e He Hs. rewrite Hbuilt in He.
    destruct (launchGameSetup_cases env opts w)
      as [(e' & Hc & _)|[(command' & e' & Hc & Hs' & Hr)
                        |(command' & proc & Hc & Hs' & _)]];
      rewrite He in Hc; try discriminate; inversion Hc; subst command'.
    + rewrite Hs in Hs'. now inversion Hs'.
    + rewrite Hs in Hs'. discriminate.
  - intros command proc He Hs. rewrite Hbuilt in He.
    destruct (launchGameSetup_cases env opts w)
      as [(e' & Hc & _)|[(command' & e' & Hc & Hs' & _)
                        |(command' & proc' & Hc & Hs' & Hr)]];
      rewrite He in Hc; try discriminate; inversion Hc; subst command'.
    + rewrite Hs in Hs'. discriminate.
    + rewrite Hs in Hs'. inversion Hs'; subst proc'. exact Hr.
  - reflexivity.
Qed.

Lemma X3_launchGameSetup_outcome_witness :
  GameLauncher.launchGameSetup Strict.linux
    (Strict.gameOpts (Sample.game "eXo/eXoDOS/doom/doom.bat")
       (Some [Sample.addApp "tool.exe" "" true true]))
    Sample.world0
  = (Rejected Strict.noDefault, Sample.world0).
Proof.
  apply (proj1 (X3_launchGameSetup_outcome Strict.linux
                  (Strict.gameOpts (Sample.game "eXo/eXoDOS/doom/doom.bat")
                     (Some [Sample.addApp "tool.exe" "" true true]))
                  Sample.world0)).
  reflexivity.
Defined.

Lemma prefix_same (s t : string) : prefix s (s ++ t) = true.
Proof.
  induction s as [|c s IH]; simpl; [now destruct t|].
  destruct (ascii_dec c c); [exact IH | contradiction].
Qed.

Lemma drop_app_length (s t : string) :
  JsString.drop (String.length s) (s ++ t) = t.
Proof. induction s as [|c s IH]; simpl; [now destruct t | exact IH]. Qed.

Lemma replace_skip (c : ascii) (s pattern replacement : string) :
  prefix pattern (String c s) = false ->
  JsString.replace (String c s) pattern replacement
  = String c (JsString.replace s pattern replacement).
Proof.
  intros Hno.
  change (JsString.replace (String c s) pattern replacement)
    with (if prefix pattern (String c s)
          then replacement ++ JsString.drop (String.length pattern) (String c s)
          else String c (JsString.replace s pattern replacement)).
  now rewrite Hno.
Qed.

Lemma replace_at_start (s t replacement : string) :
  JsString.replace (s ++ t) s replacement = replacement ++ t.
Proof.
  assert (Hhere : JsString.replace (s ++ t) s replacement
                  = if prefix s (s ++ t)
                    then replacement ++ JsString.drop (String.length s) (s ++ t)
                    else s ++ t).
  { destruct s as [|c s]; [now destruct t|].
    cbn [String.append].
    change (JsString.replace (String c (s ++ t)) (String c s) replacement)
      with (if prefix (String c s) (String c (s ++ t))
            then replacement
                   ++ JsString.drop (String.length (String c s))
                        (String c (s ++ t))
            else String c (JsString.replace (s ++ t) (String c s)
                             replacement)).
    change (String c (s ++ t)) with (String c s ++ t).
    now rewrite prefix_same. }
  now rewrite Hhere, prefix_same, drop_app_length.
Qed.

Lemma replace_first_at_end (dir name replacement : string) :
  firstOccurrenceAtEnd dir name = true ->
  JsString.replace (dir ++ name) name replacement = dir ++ replacement.
Proof.
  induction dir as [|c d IH]; intros Hfirst.
  - cbn [String.append].
    rewrite <- (app_string_nil_r name) at 1.
    now rewrite replace_at_start, app_string_nil_r.
  - cbn [firstOccurrenceAtEnd] in Hfirst.
    apply Bool.andb_true_iff in Hfirst as [Hhere Hrest].
    apply Bool.negb_true_iff in Hhere.
    change (String c d ++ name) with (String c (d ++ name)) in *.
    rewrite replace_skip by exact Hhere.
    now rewrite (IH Hrest).
Qed.

Lemma afterLastSeparator_plain (name candidate : string) :
  hasSeparator name = false -> afterLastSeparator name candidate = candidate.
Proof.
  revert candidate. induction name as [|c r IH]; intros candidate Hno;
    [reflexivity|].
  simpl in *. apply Bool.orb_false_iff in Hno as [Hc Hr].
  rewrite Hc. now apply IH.
Qed.

Lemma getFilename_after_directory (dir name : string) :
  isDirectoryPrefix dir -> hasSeparator name = false ->
  getFilename (dir ++ name) = name.
Proof.
  unfold getFilename. intros [->|(d & c & -> & Hc)] Hname.
  - cbn [String.append]. now apply afterLastSeparator_plain.
  - rewrite app_string_assoc. cbn [String.append].
    generalize (d ++ String c name) at 2. 
    induction d as [|x d IH]; intros candidate; simpl.
    + rewrite Hc. now apply afterLastSeparator_plain.
    + destruct (isSeparator x); apply IH.
Qed.

(** X4. When the application path is a directory prefix (empty, or ending
    in a separator) followed by a filename without separators, and the
    filename's text does not occur earlier in the path, the path
    [launchGameSetup] resolves is the directory prefix followed by
    [install.command]: when the command for it builds and [exec] returns a
    process, it is [install.command] in that same directory that is
    launched, and the promise is fulfilled; when [exec] throws for it, the
    promise rejects and nothing is started. *)
Theorem X4_launchGameSetup_sibling :
  forall (env : Env) (opts : LaunchGameOpts.t) (w : World)
         (dir name : string) (command : Command.t),
    IGameInfo.applicationPath (LaunchGameOpts.game opts) = dir ++ name ->
    isDirectoryPrefix dir ->
    hasSeparator name = false ->
    firstOccurrenceAtEnd dir name = true ->
    createCommand env
      (GameLauncher.resolveApplicationPath env (dir ++ "install.command")
         (LaunchGameOpts.fpPath opts) (LaunchGameOpts.execMappings opts)
         (LaunchGameOpts.native opts))
      (IGameInfo.launchCommand (LaunchGameOpts.game opts))
      (LaunchGameOpts.mappings opts) = Normal command ->
    JsString.replace (dir ++ name) (getFilename (dir ++ name))
      "install.command" = dir ++ "install.command"
    /\ (forall proc,
          spawnOf env command w = Normal proc ->
          fst (GameLauncher.launchGameSetup env opts w) = Fulfilled
          /\ spawned (snd (GameLauncher.launchGameSetup env opts w))
             = S (spawned w)
          /\ execCommands
               (events (snd (GameLauncher.launchGameSetup env opts w)))
             = (execCommands (events w) ++ [Command.command command])%list)
    /\ (forall e,
          spawnOf env command w = Throw e ->
          GameLauncher.launchGameSetup env opts w = (Rejected e, w)).
Proof.
  intros env opts w dir name command Hpath Hdir Hname Hfirst Hc.
  assert (Hsetup : JsString.replace (dir ++ name) (getFilename (dir ++ name))
                     "install.command" = dir ++ "install.command").
  { rewrite getFilename_after_directory by assumption.
    now apply replace_first_at_end. }
  assert (Hbuilt : setupCommand env opts = Normal command).
  { unfold setupCommand. now rewrite Hpath, Hsetup. }
  split; [exact Hsetup|].
  destruct (launchGameSetup_cases env opts w)
    as [(e' & Hc' & _)|[(command' & e' & Hc' & Hs' & Hr)
                       |(command' & proc' & Hc' & Hs' & Hr)]];
    rewrite Hbuilt in Hc'; try discriminate; inversion Hc'; subst command'.
  - split.
    + intros proc Hs. rewrite Hs in Hs'. discriminate.
    + intros e Hs. rewrite Hs in Hs'. now inversion Hs'.
  - split.
    + intros proc Hs. rewrite Hr. simpl.
      split; [reflexivity|]. split; [reflexivity|].
      unfold execCommands. now rewrite flat_map_app.
    + intros e Hs. rewrite Hs in Hs'. discriminate.
Qed.

Lemma X4_launchGameSetup_sibling_witness :
  execCommands
    (events
       (snd (GameLauncher.launchGameSetup Sample.linux
               (Sample.gameOpts (Sample.game "eXo\eXoDOS\doom\doom.bat")
                  None)
               Sample.world0)))
  = ["xdg-open /eXo/eXo/eXoDOS/doom/install.command "].
Proof.
  apply (proj1 (proj2
           (X4_launchGameSetup_sibling Sample.linux
              (Sample.gameOpts (Sample.game "eXo\eXoDOS\doom\doom.bat") None)
              Sample.world0 "eXo\eXoDOS\doom\" "doom.bat"
              {| Command.command :=
                   "xdg-open /eXo/eXo/eXoDOS/doom/install.command ";
                 Command.cwd := "/eXo/eXo/eXoDOS/doom/" |}
              eq_refl
              (or_intror (ex_intro _ "eXo\eXoDOS\doom"
                            (ex_intro _ "\"%char (conj eq_refl eq_refl))))
              eq_refl eq_refl eq_refl))
           {| ChildProcess.pid := Some 1000;
              ChildProcess.killed := false;
              ChildProcess.fate := FirstExit |} eq_refl).
Defined.

(** X5. The two pseudo-paths are recognised by exact comparison only.  For
    every other application path (for instance [:Message:] or a path with
    a space after it) [launchAdditionalApplication] resolves the path with
    the caller's collection root, exec mappings and [native] flag, hands the
    result with the application's launch command to [launchCommand], and
    its promise is that launch's promise, or rejects with what
    [launchCommand] threw; no dialog is opened or queued. *)
Theorem X5_ordinary_additional_application :
  forall (env : Env) (opts : LaunchAddAppOpts.t) (w : World),
    let addApp := LaunchAddAppOpts.addApp opts in
    IAdditionalApplicationInfo.applicationPath addApp <> ":message:" ->
    IAdditionalApplicationInfo.applicationPath addApp <> ":extras:" ->
    let launched :=
      GameLauncher.launchCommand env
        (GameLauncher.resolveApplicationPath env
           (IAdditionalApplicationInfo.applicationPath addApp)
           (LaunchAddAppOpts.fpPath opts) (LaunchAddAppOpts.execMappings opts)
           (LaunchAddAppOpts.native opts))
        (IAdditionalApplicationInfo.launchCommand addApp)
        (LaunchAddAppOpts.mappings opts) w in
    GameLauncher.launchAdditionalApplication env opts w
    = (GameLauncher.async (fst launched), snd launched)
    /\ later (snd (GameLauncher.launchAdditionalApplication env opts w))
       = later w
    /\ forall options,
         In (OpenDialog options)
           (events (snd (GameLauncher.launchAdditionalApplication env opts w)))
         -> In (OpenDialog options) (events w).
Proof.
  intros env opts w addApp Hm He launched.
  assert (Hrun : GameLauncher.launchAdditionalApplication env opts w
                 = (GameLauncher.async (fst launched), snd launched)).
  { unfold GameLauncher.launchAdditionalApplication,
      GameLauncher.handleSpecialApplicationPath.
    fold addApp. apply String.eqb_neq in Hm, He. rewrite Hm, He.
    cbv iota. simpl negb. cbv iota. fold launched.
    now destruct launched. }
  rewrite Hrun. subst launched.
  match goal with
  | |- context [GameLauncher.launchCommand env ?a ?b ?c w] =>
      destruct (launchCommand_cases env a b c w)
        as [(e & _ & Hr)|[(command & e & _ & _ & Hr)
                         |(command & proc & _ & _ & Hr)]];
      rewrite Hr; simpl
  end.
  - repeat split. tauto.
  - repeat split. tauto.
  - repeat split. intros options Hin.
    apply in_app_or in Hin.
    destruct Hin as [Hin|[Hin|[Hin|[Hin|[]]]]];
      [exact Hin | discriminate | discriminate | discriminate].
Qed.

Lemma X5_ordinary_additional_application_witness :
  execCommands
    (events
       (snd (GameLauncher.launchAdditionalApplication Sample.linux
               (Sample.addAppOpts (Sample.addApp ":Message:" "Hello" false false)
                  Sample.openExternalOk)
               Sample.world0)))
  = ["xdg-open /eXo/:Message: Hello"].
Proof.
  rewrite (proj1 (X5_ordinary_additional_application Sample.linux
                    (Sample.addAppOpts
                       (Sample.addApp ":Message:" "Hello" false false)
                       Sample.openExternalOk)
                    Sample.world0 ltac:(discriminate) ltac:(discriminate))).
  reflexivity.
Defined.

Lemma scanExecMappings_other_platform (env : Env)
    (execMappings : list ExecMapping.t) (filePath : string) :
  platform env <> "linux" -> platform env <> "darwin" ->
  GameLauncher.scanExecMappings env execMappings filePath = filePath.
Proof.
  intros Hl Hd. apply String.eqb_neq in Hl, Hd.
  induction execMappings as [|row rest IH]; simpl; [reflexivity|].
  rewrite Hl, Hd. now destruct (ExecMapping.win32 row =? filePath).
Qed.

(** X6. On a platform that is neither Linux nor macOS (FreeBSD, say, as
    well as Windows) the exec mappings never change a path: off Windows a
    matching row ends the scan without a substitution, so
    [resolveApplicationPath] returns the same path with [native] set as
    without, whatever the rows are. *)
Theorem X6_exec_mappings_other_platform :
  forall (env : Env) (relativePath fpPath : string)
         (execMappings : list ExecMapping.t) (native : bool),
    platform env <> "linux" ->
    platform env <> "darwin" ->
    GameLauncher.resolveApplicationPath env relativePath fpPath execMappings
      native
    = GameLauncher.resolveApplicationPath env relativePath fpPath [] false.
Proof.
  intros env relativePath fpPath execMappings native Hl Hd.
  rewrite !resolveApplicationPath_steps.
  rewrite Bool.andb_false_r.
  destruct (negb (platform env =? "win32") && native); [|reflexivity].
  now rewrite scanExecMappings_other_platform.
Qed.

Lemma X6_exec_mappings_other_platform_witness :
  GameLauncher.resolveApplicationPath
    {| platform := "freebsd";
       path_join := PosixPath.join;
       fixSlashes := fixSlashesPosix;
       createCommand := Sample.buildCommand;
       spawnResult := Sample.osReply |}
    "A" "/eXo" [Sample.rowAB] true
  = "/eXo/A".
Proof.
  rewrite X6_exec_mappings_other_platform by (simpl; discriminate).
  reflexivity.
Defined.

Section Counting.

Context (env : Env).

Import GameLauncher.

Lemma handleSpecial_no_process ap lc fp oe w :
  spawned (snd (handleSpecialApplicationPath env ap lc fp oe w)) = spawned w
  /\ execCommands
       (events (snd (handleSpecialApplicationPath env ap lc fp oe w)))
     = execCommands (events w).
Proof.
  unfold handleSpecialApplicationPath.
  destruct (ap =? ":message:").
  - simpl. now rewrite execCommands_snoc, app_nil_r.
  - destruct (ap =? ":extras:"); [|now split]. simpl snd.
    destruct (oe _ true) as [|error|];
      try (simpl; now rewrite execCommands_snoc, app_nil_r).
    destruct (truthy error); simpl;
      now rewrite execCommands_snoc, app_nil_r.
Qed.

Lemma launchCommand_spawned appPath appArgs mappings w :
  spawned (snd (launchCommand env appPath appArgs mappings w))
  <= S (spawned w).
Proof.
  destruct (launchCommand_cases env appPath appArgs mappings w)
    as [(e & _ & Hr)|[(command & e & _ & _ & Hr)
                     |(command & proc & _ & _ & Hr)]];
    rewrite Hr; simpl; lia.
Qed.

Lemma launchAdditionalApplication_spawned opts w :
  spawned (snd (launchAdditionalApplication env opts w)) <= S (spawned w).
Proof.
  unfold launchAdditionalApplication.
  pose proof (handleSpecial_no_process
                (IAdditionalApplicationInfo.applicationPath
                   (LaunchAddAppOpts.addApp opts))
                (IAdditionalApplicationInfo.launchCommand
                   (LaunchAddAppOpts.addApp opts))
                (LaunchAddAppOpts.fpPath opts)
                (LaunchAddAppOpts.openExternal opts) w) as [Hs _].
  destruct (handleSpecialApplicationPath env _ _ _ _ w) as [handled w1].
  simpl in Hs. destruct handled; simpl; [lia|].
  match goal with
  | |- context [launchCommand env ?a ?b ?c w1] =>
      pose proof (launchCommand_spawned a b c w1) as Hl;
      destruct (launchCommand env a b c w1) as [c0 w2]
  end.
  simpl in *. lia.
Qed.

Lemma launchMain_spawned opts w :
  spawned (snd (launchMain env opts w)) <= S (spawned w).
Proof.
  destruct (launchMain_cases env opts w)
    as [(e & _ & Hr)|[(command & e & _ & _ & Hr)
                     |(command & proc & _ & _ & Hr)]];
    rewrite Hr; simpl; lia.
Qed.

Lemma run_bounds opts l w :
  spawned (snd (runAutoRunBefore env opts l w))
  <= spawned w + List.length (preRun l)
  /\ List.length (awaits (events (snd (runAutoRunBefore env opts l w))))
     <= List.length (awaits (events w)) + List.length (filter waited l).
Proof.
  revert w. induction l as [|a l IH]; intros w; [simpl; lia|].
  unfold preRun, waited in *. simpl filter. simpl runAutoRunBefore.
  destruct (IAdditionalApplicationInfo.autoRunBefore a) eqn:Ha;
    [|apply IH].
  pose proof (launchAdditionalApplication_spawned (addAppOpts opts a) w)
    as Hs.
  pose proof (launchAdditionalApplication_awaits env (addAppOpts opts a) w)
    as Haw.
  destruct (launchAdditionalApplication env (addAppOpts opts a) w)
    as [p w1].
  simpl in Hs, Haw. simpl andb.
  destruct (IAdditionalApplicationInfo.waitForExit a).
  - assert (Hone : List.length (awaits (events (emit (Await p) w1)))
                   = S (List.length (awaits (events w)))).
    { simpl. rewrite awaits_snoc, Haw, length_app. simpl. lia. }
    destruct p.
    + destruct (IH (emit (Await Fulfilled) w1)) as [H1 H2].
      simpl spawned in H1. rewrite Hone in H2. simpl List.length. lia.
    + simpl snd. rewrite Hone. simpl. lia.
    + simpl snd. rewrite Hone. simpl. lia.
  - destruct (IH w1) as [H1 H2]. rewrite Haw in H2. simpl List.length. lia.
Qed.

End Counting.

(** X7. [launchGame] starts at most one process for each additional
    application flagged [autoRunBefore] and one for the game, and it
    suspends at most once for each entry flagged both [autoRunBefore] and
    [waitForExit]; entries flagged [waitForExit] alone cost neither. *)
Theorem X7_launchGame_bounds :
  forall (env : Env) (opts : LaunchGameOpts.t) (w : World),
    spawned (snd (GameLauncher.launchGame env opts w))
    <= spawned w + List.length (preRun (addAppList opts)) + 1
    /\ List.length
         (awaits (events (snd (GameLauncher.launchGame env opts w))))
       <= List.length (awaits (events w))
          + List.length (filter waited (addAppList opts)).
Proof.
  intros env opts w. unfold GameLauncher.launchGame, addAppList.
  destruct (IGameInfo.placeholder (LaunchGameOpts.game opts));
    [simpl; lia|].
  destruct (LaunchGameOpts.addApps opts) as [l|].
  - destruct (run_bounds env opts l w) as [Hs Ha].
    destruct (GameLauncher.runAutoRunBefore env opts l w) as [[p|] w1];
      simpl in *; [lia|].
    pose proof (launchMain_spawned env opts w1).
    rewrite launchMain_awaits. lia.
  - pose proof (launchMain_spawned env opts w).
    rewrite launchMain_awaits. simpl. lia.
Qed.

Lemma pseudo_path_launch (env : Env) (opts : LaunchAddAppOpts.t) (w : World) :
  isPseudoPath (LaunchAddAppOpts.addApp opts) = true ->
  fst (GameLauncher.launchAdditionalApplication env opts w) = Fulfilled
  /\ spawned (snd (GameLauncher.launchAdditionalApplication env opts w))
     = spawned w
  /\ execCommands
       (events (snd (GameLauncher.launchAdditionalApplication env opts w)))
     = execCommands (events w).
Proof.
  intros Hp. unfold GameLauncher.launchAdditionalApplication.
  pose proof (handleSpecial_no_process env
                (IAdditionalApplicationInfo.applicationPath
                   (LaunchAddAppOpts.addApp opts))
                (IAdditionalApplicationInfo.launchCommand
                   (LaunchAddAppOpts.addApp opts))
                (LaunchAddAppOpts.fpPath opts)
                (LaunchAddAppOpts.openExternal opts) w) as [Hs He].
  assert (Hh : fst (GameLauncher.handleSpecialApplicationPath env
                      (IAdditionalApplicationInfo.applicationPath
                         (LaunchAddAppOpts.addApp opts))
                      (IAdditionalApplicationInfo.launchCommand
                         (LaunchAddAppOpts.addApp opts))
                      (LaunchAddAppOpts.fpPath opts)
                      (LaunchAddAppOpts.openExternal opts) w) = true).
  { unfold GameLauncher.handleSpecialApplicationPath, isPseudoPath in *.
    destruct (_ =? ":message:"); [reflexivity|].
    destruct (_ =? ":extras:"); [reflexivity | discriminate]. }
  destruct (GameLauncher.handleSpecialApplicationPath env _ _ _ _ w)
    as [handled w1].
  simpl in *. subst handled. simpl. now repeat split.
Qed.

(** X8. Additional applications that are pseudo-paths never hold the game
    back.  When every entry flagged [autoRunBefore] has the path
    [:message:] or [:extras:], the loop of [launchGame] runs to its end
    without starting a process, also past entries flagged [waitForExit]
    (their promise is fulfilled at once: the launcher does not wait for a
    dialog to be closed), and the game's own launch follows. *)
Theorem X8_pseudo_paths_never_block :
  forall (env : Env) (opts : LaunchGameOpts.t)
         (l : list IAdditionalApplicationInfo.t) (w : World),
    IGameInfo.placeholder (LaunchGameOpts.game opts) = false ->
    LaunchGameOpts.addApps opts = Some l ->
    (forall a, In a l -> IAdditionalApplicationInfo.autoRunBefore a = true ->
               isPseudoPath a = true) ->
    exists w',
      GameLauncher.runAutoRunBefore env opts l w = (None, w')
      /\ spawned w' = spawned w
      /\ execCommands (events w') = execCommands (events w)
      /\ GameLauncher.launchGame env opts w
         = GameLauncher.launchMain env opts w'.
Proof.
  intros env opts l w Hp Hl Hall.
  assert (Hloop : exists w',
             GameLauncher.runAutoRunBefore env opts l w = (None, w')
             /\ spawned w' = spawned w
             /\ execCommands (events w') = execCommands (events w)).
  { clear Hl. revert w. induction l as [|a l IH]; intros w.
    - exists w. now repeat split.
    - assert (Hrest : forall b, In b l ->
                 IAdditionalApplicationInfo.autoRunBefore b = true ->
                 isPseudoPath b = true)
        by (intros b Hb; apply Hall; now right).
      simpl.
      destruct (IAdditionalApplicationInfo.autoRunBefore a) eqn:Ha;
        [|now apply IH].
      destruct (pseudo_path_launch env (GameLauncher.addAppOpts opts a) w
                  (Hall a (or_introl eq_refl) Ha)) as (Hf & Hs & He).
      destruct (GameLauncher.launchAdditionalApplication env
                  (GameLauncher.addAppOpts opts a) w) as [p w1].
      simpl in Hf, Hs, He. subst p.
      destruct (IAdditionalApplicationInfo.waitForExit a).
      + destruct (IH Hrest (GameLauncher.emit (Await Fulfilled) w1))
          as (w' & Hr & Hs' & He').
        exists w'. split; [exact Hr|]. simpl in Hs', He'.
        rewrite execCommands_snoc, app_nil_r in He'.
        split; congruence.
      + destruct (IH Hrest w1) as (w' & Hr & Hs' & He').
        exists w'. split; [exact Hr|]. split; congruence. }
  destruct Hloop as (w' & Hr & Hs & He).
  exists w'. repeat split; try assumption.
  now rewrite (launchGame_afterPreRun env opts l w Hp Hl), Hr.
Qed.

Lemma X8_pseudo_paths_never_block_witness :
  exists w',
    GameLauncher.runAutoRunBefore Sample.linux
      (Sample.gameOpts (Sample.game "doom.exe")
         (Some [Sample.addApp ":message:" "Read me first" true true;
                Sample.addApp "skipped.exe" "" false true]))
      [Sample.addApp ":message:" "Read me first" true true;
       Sample.addApp "skipped.exe" "" false true]
      Sample.world0 = (None, w')
    /\ spawned w' = 0.
Proof.
  destruct (X8_pseudo_paths_never_block Sample.linux
              (Sample.gameOpts (Sample.game "doom.exe")
                 (Some [Sample.addApp ":message:" "Read me first" true true;
                        Sample.addApp "skipped.exe" "" false true]))
              [Sample.addApp ":message:" "Read me first" true true;
               Sample.addApp "skipped.exe" "" false true]
              Sample.world0 eq_refl eq_refl) as (w' & Hr & Hs & _).
  - intros a [<-|[<-|[]]] Ha; [reflexivity | discriminate].
  - exists w'. split; [exact Hr | exact Hs].
Defined.

(* ================================================================== *)
(** ** The lifecycle relay *)

Lemma emit_on (emitter : Relay.EventEmitter) (registered event : string)
    (listener : Relay.Listener) (args : list JsValue) :
  Relay.emit (Relay.on emitter registered listener) event args
  = (Relay.emit emitter event args
     ++ if registered =? event then listener args else [])%list.
Proof.
  unfold Relay.emit, Relay.on. rewrite flat_map_app. simpl.
  now rewrite app_nil_r.
Qed.

Lemma emit_doStuffs (emitter : Relay.EventEmitter) (events : list string)
    (callback : string -> list JsValue -> list Relay.LogLine)
    (event : string) (args : list JsValue) :
  Relay.emit (Relay.doStuffs emitter events callback) event args
  = (Relay.emit emitter event args
     ++ concat (repeat (callback event args)
                  (count_occ string_dec events event)))%list.
Proof.
  revert emitter.
  induction events as [|e rest IH]; intros emitter; simpl.
  - now rewrite app_nil_r.
  - rewrite IH, emit_on, <- app_assoc. f_equal.
    destruct (string_dec e event) as [->|Hne].
    + now rewrite String.eqb_refl.
    + apply String.eqb_neq in Hne. now rewrite Hne.
Qed.

(** X9. After [doStuffs(emitter, events, callback)] an event reaches the
    listeners that were there before, in their order, and then [callback],
    with the event's own name and the arguments of the emission, once for
    each time the event is named in [events]; an event that is not named
    reaches no new listener. *)
Theorem X9_doStuffs_relays_named_events :
  forall (emitter : Relay.EventEmitter) (events : list string)
         (callback : string -> list JsValue -> list Relay.LogLine)
         (event : string) (args : list JsValue),
    Relay.emit (Relay.doStuffs emitter events callback) event args
    = (Relay.emit emitter event args
       ++ concat (repeat (callback event args)
                    (count_occ string_dec events event)))%list
    /\ (~ In event events ->
        Relay.emit (Relay.doStuffs emitter events callback) event args
        = Relay.emit emitter event args).
Proof.
  intros emitter events callback event args.
  split; [apply emit_doStuffs|].
  intros Hout. rewrite emit_doStuffs.
  rewrite (proj1 (count_occ_not_In string_dec _ event) Hout).
  apply app_nil_r.
Qed.

Lemma X9_doStuffs_relays_named_events_witness :
  Relay.emit
    (Relay.doStuffs [] ["exit"; "error"] (fun e _ => [("relay", e)]))
    "close" []
  = [].
Proof.
  apply (proj2 (X9_doStuffs_relays_named_events []
                  ["exit"; "error"] (fun e _ => [("relay", e)]) "close" [])).
  intros [H|[H|[]]]; discriminate.
Defined.

(** X10. [logProcessOutput] leaves the listeners a process already has in
    place and adds a relay for exactly four events: each [disconnect],
    [error], [exit] or [message] writes one line to the log, from
    [Game Launcher], made of the event's name, the padded pid ([-1] when
    the process has none) and the stringified arguments; any other event
    ([close], say) writes nothing.  A [data] chunk on an output stream is
    relayed likewise under the stream's name, and a stream the process does
    not have gets no listener. *)
Theorem X10_logProcessOutput_relay :
  forall (padStart : Z -> nat -> string)
         (stringifyArray : list JsValue -> string)
         (proc : Relay.ProcessHandle),
    let proc' := Relay.logProcessOutput padStart stringifyArray proc in
    let line := fun (event : string) (args : list JsValue) =>
      ("Game Launcher",
       event ++ " (PID: "
         ++ padStart (Relay.pidOrMinusOne (Relay.handle_pid proc)) 5
         ++ ") " ++ stringifyArray args) in
    let relayed := fun (name : string) (before after : option Relay.EventEmitter) =>
      match before, after with
      | Some s, Some s' =>
          forall event args,
            Relay.emit s' event args
            = (Relay.emit s event args
               ++ if event =? "data"
                  then [line name [JsStr (toString (hd JsUndefined args))]]
                  else [])%list
      | None, None => True
      | _, _ => False
      end in
    Relay.handle_pid proc' = Relay.handle_pid proc
    /\ (forall event args,
          In event ["disconnect"; "error"; "exit"; "message"] ->
          Relay.emit (Relay.handle_listeners proc') event args
          = (Relay.emit (Relay.handle_listeners proc) event args
             ++ [line event args])%list)
    /\ (forall event args,
          ~ In event ["disconnect"; "error"; "exit"; "message"] ->
          Relay.emit (Relay.handle_listeners proc') event args
          = Relay.emit (Relay.handle_listeners proc) event args)
    /\ relayed "stdout" (Relay.handle_stdout proc) (Relay.handle_stdout proc')
    /\ relayed "stderr" (Relay.handle_stderr proc) (Relay.handle_stderr proc').
Proof.
  intros padStart stringifyArray proc proc' line relayed.
  split; [reflexivity|].
  assert (Hstream : forall name s event args,
             Relay.emit
               (Relay.on s "data"
                  (Relay.streamListener padStart stringifyArray
                     (Relay.handle_pid proc) name)) event args
             = (Relay.emit s event args
                ++ if event =? "data"
                   then [line name [JsStr (toString (hd JsUndefined args))]]
                   else [])%list).
  { intros name s event args. rewrite emit_on.
    rewrite (String.eqb_sym "data" event). reflexivity. }
  repeat split.
  - intros event args Hin. subst proc'.
    unfold Relay.logProcessOutput. cbn [Relay.handle_listeners].
    rewrite emit_doStuffs.
    destruct Hin as [<-|[<-|[<-|[<-|[]]]]]; reflexivity.
  - intros event args Hout. subst proc'.
    unfold Relay.logProcessOutput. cbn [Relay.handle_listeners].
    rewrite emit_doStuffs.
    rewrite (proj1 (count_occ_not_In string_dec _ event) Hout).
    simpl. apply app_nil_r.
  - subst proc' relayed. simpl.
    destruct (Relay.handle_stdout proc); [apply Hstream | exact I].
  - subst proc' relayed. simpl.
    destruct (Relay.handle_stderr proc); [apply Hstream | exact I].
Qed.

Lemma X10_logProcessOutput_relay_witness :
  let proc :=
    {| Relay.handle_pid := None;
       Relay.handle_listeners := [];
       Relay.handle_stdout := Some [];
       Relay.handle_stderr := None |} in
  Relay.emit
    (Relay.handle_listeners
       (Relay.logProcessOutput (fun _ _ => "   -1") (fun _ => "[ 1 ]") proc))
    "exit" [JsStr "1"]
  = [("Game Launcher", "exit (PID:    -1) [ 1 ]")].
Proof.
  intros proc.
  apply (proj1 (proj2 (X10_logProcessOutput_relay
                         (fun _ _ => "   -1") (fun _ => "[ 1 ]") proc))
           "exit" [JsStr "1"]).
  simpl. tauto.
Defined.

(* ================================================================== *)
(** ** Further properties of the back end *)

(** X11. [initialize] runs at most once.  [state.isInitialized] is set
    before the start-up message is even parsed, so after a first call,
    whether it went through or failed on the message, the preferences or
    the configuration, every later call returns at once and leaves the
    state as it is (provided the rest of the start-up does not clear the
    flag, which nothing in the file does). *)
Theorem X11_initialize_once :
  forall (Preferences Config : Type) (platform : Platform)
         (path_join : string -> string -> string)
         (parseInitArgs : string -> Completion Back.BackInitArgs)
         (readPreferences : string -> Completion Preferences)
         (readConfig : string -> Completion Config)
         (readJsonFile : string -> Completion IAppCommandsMappingData.t)
         (restOfStartup :
            @Back.BackState Preferences Config
            -> Completion unit * @Back.BackState Preferences Config)
         (first second : string) (s : @Back.BackState Preferences Config),
    (forall s0, Back.isInitialized s0 = true ->
                Back.isInitialized (snd (restOfStartup s0)) = true) ->
    let s1 :=
      snd (Back.initialize platform path_join parseInitArgs readPreferences
             readConfig readJsonFile restOfStartup first s) in
    Back.isInitialized s1 = true
    /\ Back.initialize platform path_join parseInitArgs readPreferences
         readConfig readJsonFile restOfStartup second s1
       = (Normal tt, s1).
Proof.
  intros Preferences Config platform path_join parseInitArgs readPreferences
    readConfig readJsonFile restOfStartup first second s Hrest s1.
  assert (Hinit : Back.isInitialized s1 = true).
  { subst s1. unfold Back.initialize.
    destruct (Back.isInitialized s) eqn:Hs; [exact Hs|].
    destruct (parseInitArgs first) as [content|e]; [|reflexivity].
    destruct (readPreferences _) as [prefs|e]; [|reflexivity].
    destruct (readConfig _) as [cfg|e]; [|reflexivity].
    apply Hrest. unfold Back.loadCommandMappings.
    now destruct (readJsonFile _). }
  split; [exact Hinit|].
  unfold Back.initialize at 1. now rewrite Hinit.
Qed.

Lemma X11_initialize_once_witness :
  let run :=
    Back.initialize (Preferences := unit) (Config := unit) "linux"
      PosixPath.join
      (fun message =>
         if message =? "" then Throw (JsError "SyntaxError" "Unexpected end")
         else Normal (Back.mkInitArgs "s3cret" "/cfg" "/app/exogui" "/app"))
      (fun _ => Normal tt) (fun _ => Normal tt)
      (fun _ => Normal Sample.mappings)
      (fun s => (Normal tt, s)) in
  let failed := snd (run "" Back.state) in
  run "{}" failed = (Normal tt, failed).
Proof.
  intros run failed.
  apply (proj2 (X11_initialize_once unit unit "linux" PosixPath.join _
                  (fun _ => Normal tt) (fun _ => Normal tt)
                  (fun _ => Normal Sample.mappings)
                  (fun s => (Normal tt, s)) "" "{}" Back.state
                  (fun s0 H => H))).
Defined.

(** X12. When the platform-named mappings file can be read, [initialize]
    takes the parsed table as it is (the start-up table is replaced, not
    merged), writes nothing to the console at that step, and goes on with
    the rest of the start-up. *)
Theorem X12_mappings_file_loaded :
  forall (Preferences Config : Type) (platform : Platform)
         (path_join : string -> string -> string)
         (parseInitArgs : string -> Completion Back.BackInitArgs)
         (readPreferences : string -> Completion Preferences)
         (readConfig : string -> Completion Config)
         (readJsonFile : string -> Completion IAppCommandsMappingData.t)
         (restOfStartup :
            @Back.BackState Preferences Config
            -> Completion unit * @Back.BackState Preferences Config)
         (message : string) (s : @Back.BackState Preferences Config)
         (content : Back.BackInitArgs) (prefs : Preferences) (cfg : Config)
         (data : IAppCommandsMappingData.t),
    Back.isInitialized s = false ->
    parseInitArgs message = Normal content ->
    readPreferences
      (path_join (Back.arg_configFolder content) "preferences.json")
    = Normal prefs ->
    readConfig (path_join (Back.arg_configFolder content) "config.json")
    = Normal cfg ->
    readJsonFile
      (path_join (Back.arg_basePath content)
         ("mappings." ++ platform ++ ".json")) = Normal data ->
    exists s',
      Back.initialize platform path_join parseInitArgs readPreferences
        readConfig readJsonFile restOfStartup message s
      = restOfStartup s'
      /\ Back.commandMappings s' = data
      /\ Back.console s' = Back.console s
      /\ Back.isInitialized s' = true
      /\ Back.basePath s' = Some (Back.arg_basePath content)
      /\ Back.preferences s' = Some prefs
      /\ Back.config s' = Some cfg.
Proof.
  intros Preferences Config platform path_join parseInitArgs readPreferences
    readConfig readJsonFile restOfStartup message s content prefs cfg data
    Hs Hparse Hprefs Hcfg Hjson.
  unfold Back.initialize. rewrite Hs.
  unfold Back.preferencesFilename, Back.configFilename.
  rewrite Hparse, Hprefs, Hcfg.
  unfold Back.loadCommandMappings, Back.commandMappingsFilename.
  rewrite Hjson.
  eexists. split; [reflexivity|]. now repeat split.
Qed.

Lemma X12_mappings_file_loaded_witness :
  exists s',
    Back.initialize (Preferences := unit) (Config := unit) "linux"
      PosixPath.join
      (fun _ => Normal (Back.mkInitArgs "s3cret" "/cfg" "/app/exogui" "/app"))
      (fun _ => Normal tt) (fun _ => Normal tt)
      (fun _ => Normal Sample.mappings)
      (fun s => (Normal tt, s)) "{}" Back.state
    = (Normal tt, s')
    /\ Back.commandMappings s' = Sample.mappings.
Proof.
  destruct (X12_mappings_file_loaded unit unit "linux" PosixPath.join
              (fun _ => Normal
                          (Back.mkInitArgs "s3cret" "/cfg" "/app/exogui"
                             "/app"))
              (fun _ => Normal tt) (fun _ => Normal tt)
              (fun _ => Normal Sample.mappings)
              (fun s => (Normal tt, s)) "{}" Back.state
              (Back.mkInitArgs "s3cret" "/cfg" "/app/exogui" "/app") tt tt
              Sample.mappings eq_refl eq_refl eq_refl eq_refl eq_refl)
    as (s' & Hrun & Hmap & _).
  exists s'. split; assumption.
Defined.

Lemma isAbsolute_slash (s : string) : PosixPath.isAbsolute ("/" ++ s) = true.
Proof. unfold PosixPath.isAbsolute. simpl. now destruct s. Qed.

Lemma normalize_absolute (p : string) :
  PosixPath.isAbsolute p = true ->
  PosixPath.isAbsolute (PosixPath.normalize p) = true.
Proof.
  intros Habs. unfold PosixPath.normalize.
  destruct (p =? "") eqn:Hp.
  - apply String.eqb_eq in Hp. subst p. discriminate.
  - rewrite Habs.
    destruct (PosixPath.joinSegments _ =? ""); [reflexivity|].
    apply isAbsolute_slash.
Qed.

Lemma join_absolute (a b : string) :
  PosixPath.isAbsolute a = true ->
  PosixPath.isAbsolute (PosixPath.join a b) = true.
Proof.
  intros Habs. unfold PosixPath.join.
  destruct (a =? "") eqn:Ha.
  - apply String.eqb_eq in Ha. subst a. discriminate.
  - destruct (b =? ""); apply normalize_absolute; [exact Habs|].
    destruct a as [|c a]; [discriminate|].
    unfold PosixPath.isAbsolute in *.
    change (String c a ++ "/" ++ b) with (String c (a ++ "/" ++ b)).
    cbn [prefix] in *. destruct (ascii_dec "/" c); [|discriminate].
    now destruct (a ++ "/" ++ b).
Qed.

(** X13. On a posix host with an absolute base path, the exodos path that
    [initialize] stores is always absolute: an absolute configured path is
    kept as it was written, a relative one is joined onto the base path,
    and the embedded path is the parent of the base path for an AppImage or
    on macOS and its grandparent otherwise, whatever the configured path
    is. *)
Theorem X13_exodos_path_absolute :
  forall (platform : Platform) (APPIMAGE : option string)
         (basePath configured : string) (useEmbeddedExodosPath : bool),
    PosixPath.isAbsolute basePath = true ->
    let stored :=
      BackServer.resolveExodosPath PosixPath.isAbsolute PosixPath.join
        platform APPIMAGE basePath useEmbeddedExodosPath configured in
    PosixPath.isAbsolute stored = true
    /\ (useEmbeddedExodosPath = false ->
        PosixPath.isAbsolute configured = true -> stored = configured)
    /\ (useEmbeddedExodosPath = false ->
        PosixPath.isAbsolute configured = false ->
        stored = PosixPath.join basePath configured)
    /\ (useEmbeddedExodosPath = true ->
        stored
        = PosixPath.join basePath
            (if BackServer.envSet APPIMAGE || (platform =? "darwin")
             then "../" else "../../")).
Proof.
  intros platform APPIMAGE basePath configured useEmbedded Hbase stored.
  subst stored. unfold BackServer.resolveExodosPath.
  repeat split.
  - destruct (PosixPath.isAbsolute
                (if useEmbedded
                 then BackServer.getEmbeddedExodosPath platform APPIMAGE
                 else configured)) eqn:Habs; simpl.
    + exact Habs.
    + now apply join_absolute.
  - intros -> Habs. now rewrite Habs.
  - intros -> Hrel. now rewrite Hrel.
  - intros ->. unfold BackServer.getEmbeddedExodosPath.
    now destruct (BackServer.envSet APPIMAGE || (platform =? "darwin")).
Qed.

Lemma X13_exodos_path_absolute_witness :
  BackServer.resolveExodosPath PosixPath.isAbsolute PosixPath.join
    "linux" None "/opt/exogui/resources" true "C:\eXoDOS"
  = "/opt/".
Proof.
  rewrite (proj2 (proj2 (proj2
             (X13_exodos_path_absolute "linux" None "/opt/exogui/resources"
                "C:\eXoDOS" true eq_refl))) eq_refl).
  reflexivity.
Defined.

Section BroadcastFacts.

Context (stringify : BackServer.Response -> string)
        (typeName : BackServer.Response -> string).

Lemma forEachClient_stops (message name : string)
    (clients : list BackServer.Socket) :
  BackServer.forEachClient message name clients
  = (match clients with
     | [] => Normal tt
     | _ :: _ => Throw BackServer.notDefined
     end, clients, [], 0).
Proof. now destruct clients. Qed.

Lemma broadcast_state (response : BackServer.Response)
    (s : BackServer.ServerState) :
  snd (BackServer.broadcast stringify typeName response s) = s.
Proof.
  unfold BackServer.broadcast.
  destruct s as [[clients|] logs console queries]; [|reflexivity].
  cbn [BackServer.server]. rewrite forEachClient_stops.
  cbn. now rewrite app_nil_r.
Qed.

Lemma discard_state {A : Type}
    (r : Completion A * BackServer.ServerState) :
  snd (BackServer.discard r) = snd r.
Proof. now destruct r as [[a|e] s]. Qed.

End BroadcastFacts.

(** X15. [broadcast] reaches no client.  While the server is still the
    error proxy, and when the server has no client, it returns 0.  When
    the server has a client, the test of the first client evaluates
    [onMessageWrap], which the file does not declare: the call throws a
    [ReferenceError] before anything is sent or written to the console.
    In every case the state is left as it was: no inbox grows, and the
    console, the logs and the query caches are not touched. *)
Theorem X15_broadcast_reaches_no_client :
  forall (stringify typeName : BackServer.Response -> string)
         (response : BackServer.Response) (s : BackServer.ServerState),
    let r := BackServer.broadcast stringify typeName response s in
    (BackServer.server s = None -> r = (Normal 0, s))
    /\ (BackServer.server s = Some [] -> r = (Normal 0, s))
    /\ (forall socket rest,
          BackServer.server s = Some (socket :: rest) ->
          r = (Throw BackServer.notDefined, s))
    /\ snd r = s
    /\ (forall count, fst r = Normal count -> count = 0).
Proof.
  intros stringify typeName response s r. subst r.
  split; [|split; [|split; [|split]]].
  - intros Hs. unfold BackServer.broadcast. now rewrite Hs.
  - intros Hs. rewrite (surjective_pairing (BackServer.broadcast _ _ _ _)).
    rewrite broadcast_state. unfold BackServer.broadcast. now rewrite Hs.
  - intros socket rest Hs.
    rewrite (surjective_pairing (BackServer.broadcast _ _ _ _)).
    rewrite broadcast_state. unfold BackServer.broadcast. now rewrite Hs.
  - apply broadcast_state.
  - intros count. unfold BackServer.broadcast.
    destruct (BackServer.server s) as [clients|].
    + rewrite forEachClient_stops. destruct clients; cbn; congruence.
    + cbn. congruence.
Qed.

Lemma X15_broadcast_reaches_no_client_witness :
  let s :=
    {| BackServer.server :=
         Some [ {| BackServer.onmessage := 1; BackServer.inbox := [] |};
                {| BackServer.onmessage := 2; BackServer.inbox := [] |} ];
       BackServer.logs := [];
       BackServer.console := [];
       BackServer.queries := [] |} in
  BackServer.broadcast (fun _ => "{}") (fun _ => "PLAYLIST_UPDATE")
    (BackServer.PlaylistUpdate "" (BackServer.mkPlaylist "fav.json")) s
  = (Throw BackServer.notDefined, s).
Proof.
  intros s.
  apply (proj1 (proj2 (proj2
           (X15_broadcast_reaches_no_client (fun _ => "{}")
              (fun _ => "PLAYLIST_UPDATE")
              (BackServer.PlaylistUpdate ""
                 (BackServer.mkPlaylist "fav.json")) s)))
           _ _ eq_refl).
Defined.


(** X16. [exit] acts once: it broadcasts the quit signal and asks the
    servers to close only when [state.isExit] was not set, and a second
    call does nothing.  [process.exit] is reached exactly when the file
    server exists and its [close] calls back, and the WebSocket server
    either is still the error proxy or calls back too; when there is no
    file server the promise made for it never resolves and the process is
    never ended by [exit]. *)
Theorem X16_exit_once :
  forall (s : BackServer.ExitState),
    (In BackServer.ProcessExit (snd (BackServer.exit s))
     <-> BackServer.isExit s = false
         /\ (exists e, BackServer.fileServer s = Some (BackServer.Called e))
         /\ (BackServer.wsServer s = None
             \/ exists e, BackServer.wsServer s = Some (BackServer.Called e)))
    /\ BackServer.exit (fst (BackServer.exit s))
       = (fst (BackServer.exit s), [])
    /\ (BackServer.isExit s = true -> BackServer.exit s = (s, []))
    /\ (BackServer.isExit s = false ->
        exists rest,
          snd (BackServer.exit s) = BackServer.BroadcastQuit :: rest
          /\ ~ In BackServer.BroadcastQuit rest).
Proof.
  intros [exited ws fs].
  assert (Hwarn : forall text reply e,
             In e (BackServer.closeWarning text reply) ->
             e <> BackServer.ProcessExit /\ e <> BackServer.BroadcastQuit).
  { intros text [|[error|]] e; simpl; try tauto.
    destruct (truthy error); simpl; [|tauto].
    intros [<-|[]]. split; discriminate. }
  assert (Hresolves : forall reply,
             BackServer.closeResolves reply = true ->
             exists e, reply = BackServer.Called e).
  { intros [|e]; [discriminate | now exists e]. }
  unfold BackServer.exit.
  cbn [BackServer.isExit BackServer.wsServer BackServer.fileServer].
  destruct exited.
  { simpl. repeat split; try tauto; try discriminate.
    intros (H & _); discriminate. }
  cbn [fst snd].
  split; [|split; [reflexivity | split; [discriminate|]]].
  - split.
    + intros [H|Hin]; [discriminate|]. split; [reflexivity|].
      apply in_app_or in Hin as [Hin|Hin].
      { destruct ws as [reply|]; [|destruct Hin].
        destruct Hin as [H|Hin]; [discriminate|].
        now destruct (proj1 (Hwarn _ _ _ Hin)). }
      apply in_app_or in Hin as [Hin|Hin].
      { destruct fs as [reply|]; [|destruct Hin].
        destruct Hin as [H|Hin]; [discriminate|].
        now destruct (proj1 (Hwarn _ _ _ Hin)). }
      destruct (_ && _) eqn:Hall; [|destruct Hin].
      apply Bool.andb_true_iff in Hall as [Hws Hfs]. split.
      * destruct fs as [reply|]; [|discriminate].
        destruct (Hresolves _ Hfs) as [e ->]. now exists e.
      * destruct ws as [reply|]; [|now left].
        destruct (Hresolves _ Hws) as [e ->]. right. now exists e.
    + intros (_ & [e2 ->] & Hws). right.
      apply in_or_app. right. apply in_or_app. right.
      destruct Hws as [-> | [e1 ->]]; now left.
  - intros _. eexists. split; [reflexivity|].
    intros Hin. apply in_app_or in Hin as [Hin|Hin].
    { destruct ws as [reply|]; [|destruct Hin].
      destruct Hin as [H|Hin]; [discriminate|].
      now destruct (proj2 (Hwarn _ _ _ Hin)). }
    apply in_app_or in Hin as [Hin|Hin].
    { destruct fs as [reply|]; [|destruct Hin].
      destruct Hin as [H|Hin]; [discriminate|].
      now destruct (proj2 (Hwarn _ _ _ Hin)). }
    destruct (_ && _); [|destruct Hin].
    destruct Hin as [H|[]]. discriminate.
Qed.

Lemma X16_exit_once_witness :
  ~ In BackServer.ProcessExit
      (snd (BackServer.exit
              {| BackServer.isExit := false;
                 BackServer.wsServer := None;
                 BackServer.fileServer := None |})).
Proof.
  intros Hin.
  destruct (proj1 (proj1 (X16_exit_once
                            {| BackServer.isExit := false;
                               BackServer.wsServer := None;
                               BackServer.fileServer := None |})) Hin)
    as (_ & [e He] & _).
  discriminate He.
Defined.


Section QueryCaches.

Import BackServer.

Lemma filter_all {A : Type} (f : A -> bool) (l : list A) :
  (forall x, In x l -> f x = true) -> filter f l = l.
Proof.
  induction l as [|x l IH]; intros Hall; simpl; [reflexivity|].
  rewrite (Hall x (or_introl eq_refl)). f_equal. apply IH.
  intros y Hy. apply Hall. now right.
Qed.

Lemma filter_twice {A : Type} (f g : A -> bool) (l : list A) :
  filter f (filter g l) = filter (fun x => g x && f x) l.
Proof.
  induction l as [|x l IH]; simpl; [reflexivity|].
  destruct (g x); simpl; [|exact IH].
  destruct (f x); now rewrite IH.
Qed.

Lemma NoDup_keys_filter (g : string * QueryCache -> bool)
    (qs : list (string * QueryCache)) :
  NoDup (map fst qs) -> NoDup (map fst (filter g qs)).
Proof.
  induction qs as [|e qs IH]; simpl; intros Hnd; [constructor|].
  inversion Hnd as [|k ks Hout Hrest]; subst.
  destruct (g e); simpl; [|now apply IH].
  constructor; [|now apply IH].
  intros Hin. apply Hout. apply in_map_iff in Hin as (x & Hx & Hxin).
  apply in_map_iff. exists x. split; [exact Hx|].
  now apply filter_In in Hxin.
Qed.

Lemma lookupQuery_unique (qs : list (string * QueryCache))
    (e : string * QueryCache) :
  NoDup (map fst qs) -> In e qs -> lookupQuery (fst e) qs = Some (snd e).
Proof.
  induction qs as [|[k c] qs IH]; simpl; intros Hnd Hin; [destruct Hin|].
  inversion Hnd as [|k' ks Hout Hrest]; subst.
  destruct Hin as [<-|Hin]; simpl.
  - now rewrite String.eqb_refl.
  - destruct (k =? fst e) eqn:Hk; [|now apply IH].
    apply String.eqb_eq in Hk. subst k. exfalso. apply Hout.
    apply in_map_iff. now exists e.
Qed.

Lemma clearQueryCaches_filter (playlist : GamePlaylist)
    (hashes : list string) (qs : list (string * QueryCache)) :
  NoDup (map fst qs) ->
  clearQueryCaches playlist hashes qs
  = filter
      (fun e => negb (existsb (fun h => h =? fst e) hashes
                      && cachesPlaylist playlist e)) qs.
Proof.
  revert qs. induction hashes as [|hash rest IH]; intros qs Hnd.
  - simpl. symmetry. now apply filter_all.
  - cbn [clearQueryCaches existsb].
    assert (Hkey : forall e cache,
               In e qs -> lookupQuery hash qs = Some cache ->
               (hash =? fst e) = true -> snd e = cache).
    { intros e cache Hin Hl Hk. apply String.eqb_eq in Hk. subst hash.
      rewrite (lookupQuery_unique qs e Hnd Hin) in Hl. congruence. }
    destruct (lookupQuery hash qs) as [cache|] eqn:Hl.
    + destruct (samePlaylist cache playlist) eqn:Hsame.
      * rewrite IH by now apply NoDup_keys_filter.
        unfold deleteQuery. rewrite filter_twice.
        apply filter_ext_in. intros e Hin.
        rewrite (String.eqb_sym (fst e) hash).
        destruct (hash =? fst e) eqn:Hk; simpl; [|reflexivity].
        unfold cachesPlaylist.
        now rewrite (Hkey e cache Hin eq_refl Hk), Hsame.
      * rewrite IH by exact Hnd.
        apply filter_ext_in. intros e Hin.
        destruct (hash =? fst e) eqn:Hk; simpl; [|reflexivity].
        unfold cachesPlaylist.
        rewrite (Hkey e cache Hin eq_refl Hk), Hsame.
        now rewrite !Bool.andb_false_r.
    + rewrite IH by exact Hnd.
      apply filter_ext_in. intros e Hin.
      destruct (hash =? fst e) eqn:Hk; simpl; [|reflexivity].
      apply String.eqb_eq in Hk. subst hash.
      rewrite (lookupQuery_unique qs e Hnd Hin) in Hl. discriminate.
Qed.

End QueryCaches.

(** X17. When a playlist is added or updated, the callback drops from
    [state.queries] exactly the caches whose query is on that playlist (its
    [playlistId] is the playlist's filename): none of them is left, every
    other cache, also one without a playlist, stays in place and in order,
    and the logs are not touched.  (The keys of an object are distinct.)
    The caches are cleared before the broadcast, so this holds of the
    state the callback leaves behind also when the broadcast throws; the
    callback returns when the server is still the error proxy or has no
    client, and throws what the broadcast throws when there is a client. *)
Theorem X17_playlist_update_clears_its_caches :
  forall (stringify typeName : BackServer.Response -> string)
         (playlist : BackServer.GamePlaylist) (s : BackServer.ServerState),
    NoDup (map fst (BackServer.queries s)) ->
    let s' :=
      snd (BackServer.onPlaylistAddOrUpdate stringify typeName playlist s) in
    BackServer.queries s'
    = filter (fun e => negb (cachesPlaylist playlist e))
        (BackServer.queries s)
    /\ (forall e, In e (BackServer.queries s') ->
                  BackServer.playlistId (snd e)
                  <> Some (BackServer.filename playlist))
    /\ (forall e, In e (BackServer.queries s) ->
                  BackServer.playlistId (snd e)
                  <> Some (BackServer.filename playlist) ->
                  In e (BackServer.queries s'))
    /\ BackServer.logs s' = BackServer.logs s
    /\ (BackServer.server s = None \/ BackServer.server s = Some [] ->
        fst (BackServer.onPlaylistAddOrUpdate stringify typeName playlist s)
        = Normal tt)
    /\ (forall socket rest,
          BackServer.server s = Some (socket :: rest) ->
          fst (BackServer.onPlaylistAddOrUpdate stringify typeName playlist s)
          = Throw BackServer.notDefined).
Proof.
  intros stringify typeName playlist s Hnd s'.
  assert (Hq : BackServer.queries s'
               = filter (fun e => negb (cachesPlaylist playlist e))
                   (BackServer.queries s)
               /\ BackServer.logs s' = BackServer.logs s).
  { subst s'. unfold BackServer.onPlaylistAddOrUpdate.
    rewrite discard_state, broadcast_state.
    cbn [BackServer.queries BackServer.logs].
    assert (Hclear : BackServer.clearQueryCaches playlist
                       (map fst (BackServer.queries s)) (BackServer.queries s)
                     = filter (fun e => negb (cachesPlaylist playlist e))
                         (BackServer.queries s)).
    { rewrite clearQueryCaches_filter by exact Hnd.
      apply filter_ext_in. intros e Hin.
      assert (Hex : existsb (fun h => h =? fst e)
                      (map fst (BackServer.queries s)) = true).
      { apply existsb_exists. exists (fst e). split.
        - apply in_map_iff. now exists e.
        - apply String.eqb_refl. }
      now rewrite Hex. }
    now rewrite Hclear. }
  destruct Hq as [Hq Hlogs].
  assert (Hcache : forall e : string * BackServer.QueryCache,
             cachesPlaylist playlist e = false
             <-> BackServer.playlistId (snd e)
                 <> Some (BackServer.filename playlist)).
  { intros e. unfold cachesPlaylist, BackServer.samePlaylist.
    destruct (BackServer.playlistId (snd e)) as [id|].
    - rewrite String.eqb_neq. split; congruence.
    - split; [discriminate | reflexivity]. }
  split; [exact Hq|]. rewrite Hq.
  split; [|split; [|split; [exact Hlogs|split]]].
  - intros e Hin. apply filter_In in Hin as [_ Hkeep].
    apply Hcache. now apply Bool.negb_true_iff.
  - intros e Hin Hother. apply filter_In. split; [exact Hin|].
    apply Bool.negb_true_iff. now apply Hcache.
  - intros Hs. unfold BackServer.onPlaylistAddOrUpdate, BackServer.broadcast.
    cbn [BackServer.server]. now destruct Hs as [-> | ->].
  - intros socket rest Hs.
    unfold BackServer.onPlaylistAddOrUpdate, BackServer.broadcast.
    cbn [BackServer.server]. now rewrite Hs.
Qed.

Lemma X17_playlist_update_clears_its_caches_witness :
  let s :=
    {| BackServer.server := None;
       BackServer.logs := [];
       BackServer.console := [];
       BackServer.queries :=
         [("h1", BackServer.mkCache (Some "fav.json"));
          ("h2", BackServer.mkCache None);
          ("h3", BackServer.mkCache (Some "other.json"));
          ("h4", BackServer.mkCache (Some "fav.json"))] |} in
  BackServer.queries
    (snd (BackServer.onPlaylistAddOrUpdate (fun _ => "{}")
            (fun _ => "PLAYLIST_UPDATE") (BackServer.mkPlaylist "fav.json")
            s))
  = [("h2", BackServer.mkCache None);
     ("h3", BackServer.mkCache (Some "other.json"))].
Proof.
  intros s.
  assert (Hkeys : NoDup (map fst (BackServer.queries s))).
  { simpl. repeat (constructor; [simpl; intuition discriminate|]).
    constructor. }
  rewrite (proj1 (X17_playlist_update_clears_its_caches (fun _ => "{}")
                    (fun _ => "PLAYLIST_UPDATE")
                    (BackServer.mkPlaylist "fav.json") s Hkeys)).
  reflexivity.
Defined.

(* ================================================================== *)
(** ** The request handlers *)

(** X18. The [LAUNCH_COMMAND] handler launches the file under the exodos
    path with an empty argument string and does not wait for it.  Its own
    promise rejects in two cases only, and in both nothing was started or
    logged: when the command cannot be built, and when [exec] throws for
    the built command.  When [exec] returns a process, the reply is
    fulfilled, that one process has been started, and what becomes of it
    (also an [error] event, which rejects the launch's promise) reaches
    only the promise the handler let go of. *)
Theorem X18_launch_command_handler :
  forall (env : Env) (path_resolve : string -> string)
         (ctx : Responses.BackContext) (filePath : string) (w : World),
    let appPath :=
      fixSlashes env
        (path_join env (path_resolve (Responses.exodosPath ctx)) filePath) in
    let built :=
      createCommand env appPath "" (Responses.commandMappings ctx) in
    let r := Responses.onLaunchCommand env path_resolve ctx filePath w in
    (forall e,
        built = Throw e ->
        r = {| Responses.reply := Rejected e;
               Responses.letGo := None;
               Responses.world := w |})
    /\ (forall command e,
          built = Normal command ->
          spawnOf env command w = Throw e ->
          r = {| Responses.reply := Rejected e;
                 Responses.letGo := None;
                 Responses.world := w |})
    /\ (forall command proc,
          built = Normal command ->
          spawnOf env command w = Normal proc ->
          Responses.reply r = Fulfilled
          /\ Responses.letGo r = Some (GameLauncher.exitPromise proc)
          /\ spawned (Responses.world r) = S (spawned w)
          /\ execCommands (events (Responses.world r))
             = (execCommands (events w) ++ [Command.command command])%list
          /\ forall error,
               ChildProcess.killed proc = false ->
               ChildProcess.fate proc = FirstError error ->
               Responses.letGo r = Some (Rejected error)).
Proof.
  intros env path_resolve ctx filePath w appPath built r.
  subst r. unfold Responses.onLaunchCommand. fold appPath.
  destruct (launchCommand_cases env appPath "" (Responses.commandMappings ctx)
              w)
    as [(e' & Hc' & Hr)|[(command' & e' & Hc' & Hs' & Hr)
                        |(command' & proc' & Hc' & Hs' & Hr)]];
    fold built in Hc'; rewrite Hr; clear Hr;
    (split; [|split]).
  - intros e He. rewrite He in Hc'. now inversion Hc'.
  - intros command e He. rewrite He in Hc'. discriminate.
  - intros command proc He. rewrite He in Hc'. discriminate.
  - intros e He. rewrite He in Hc'. discriminate.
  - intros command e He Hs. rewrite He in Hc'. inversion Hc'; subst command'.
    rewrite Hs in Hs'. now inversion Hs'.
  - intros command proc He Hs. rewrite He in Hc'. inversion Hc'; subst command'.
    rewrite Hs in Hs'. discriminate.
  - intros e He. rewrite He in Hc'. discriminate.
  - intros command e He Hs. rewrite He in Hc'. inversion Hc'; subst command'.
    rewrite Hs in Hs'. discriminate.
  - intros command proc He Hs. rewrite He in Hc'. inversion Hc'; subst command'.
    rewrite Hs in Hs'. inversion Hs'; subst proc'. simpl.
    split; [reflexivity|]. split; [reflexivity|]. split; [reflexivity|].
    split.
    + unfold execCommands. now rewrite flat_map_app.
    + intros error Hk Hf. unfold GameLauncher.exitPromise.
      now rewrite Hk, Hf.
Qed.

Lemma X18_launch_command_handler_witness :
  Responses.onLaunchCommand Sample.linux (fun p => p)
    {| Responses.exodosPath := "/eXo";
       Responses.nativePlatforms := [];
       Responses.commandMappings := Sample.mappings;
       Responses.execMappings := [];
       Responses.openExternal := Sample.openExternalOk |}
    "file.txt/tool.exe" Sample.world0
  = {| Responses.reply := Rejected Sample.ENOTDIR;
       Responses.letGo := None;
       Responses.world := Sample.world0 |}
  /\ Responses.reply
       (Responses.onLaunchCommand Sample.linux (fun p => p)
          {| Responses.exodosPath := "/eXo";
             Responses.nativePlatforms := [];
             Responses.commandMappings := Sample.mappings;
             Responses.execMappings := [];
             Responses.openExternal := Sample.openExternalOk |}
          "missing/setup.exe" Sample.world0)
     = Fulfilled.
Proof.
  split.
  - apply (proj1 (proj2
             (X18_launch_command_handler Sample.linux (fun p => p)
                {| Responses.exodosPath := "/eXo";
                   Responses.nativePlatforms := [];
                   Responses.commandMappings := Sample.mappings;
                   Responses.execMappings := [];
                   Responses.openExternal := Sample.openExternalOk |}
                "file.txt/tool.exe" Sample.world0))
             {| Command.command := "xdg-open /eXo/file.txt/tool.exe ";
                Command.cwd := "/eXo/file.txt/" |}
             Sample.ENOTDIR eq_refl eq_refl).
  - apply (proj2 (proj2
             (X18_launch_command_handler Sample.linux (fun p => p)
                {| Responses.exodosPath := "/eXo";
                   Responses.nativePlatforms := [];
                   Responses.commandMappings := Sample.mappings;
                   Responses.execMappings := [];
                   Responses.openExternal := Sample.openExternalOk |}
                "missing/setup.exe" Sample.world0))
             {| Command.command := "xdg-open /eXo/missing/setup.exe ";
                Command.cwd := "/eXo/missing/" |}
             {| ChildProcess.pid := None;
                ChildProcess.killed := false;
                ChildProcess.fate := FirstError Sample.ENOENT |}
             eq_refl eq_refl).
Defined.

(** X19. The [LAUNCH_GAME] handler hands [launchGame] a [native] flag that
    is set exactly when the game's platform is, character for character,
    one of the configured native platforms, and it never waits for the
    launch: its reply is fulfilled whatever [launchGame]'s promise does, so
    a rejected launch rejects only the promise that was let go. *)
Theorem X19_launch_game_handler :
  forall (env : Env) (path_resolve : string -> string)
         (ctx : Responses.BackContext) (game : Responses.Game)
         (addApps : option (list IAdditionalApplicationInfo.t)) (w : World),
    let opts := Responses.gameOpts path_resolve ctx game addApps in
    let r := Responses.onLaunchGame env path_resolve ctx game addApps w in
    (LaunchGameOpts.native opts = true
     <-> In (Responses.gamePlatform game) (Responses.nativePlatforms ctx))
    /\ Responses.reply r = Fulfilled
    /\ Responses.letGo r = Some (fst (GameLauncher.launchGame env opts w))
    /\ Responses.world r = snd (GameLauncher.launchGame env opts w)
    /\ (forall error,
          fst (GameLauncher.launchGame env opts w) = Rejected error ->
          Responses.reply r = Fulfilled
          /\ Responses.letGo r = Some (Rejected error)).
Proof.
  intros env path_resolve ctx game addApps w opts r.
  assert (Hr : Responses.reply r = Fulfilled
               /\ Responses.letGo r
                  = Some (fst (GameLauncher.launchGame env opts w))
               /\ Responses.world r
                  = snd (GameLauncher.launchGame env opts w)).
  { subst r. unfold Responses.onLaunchGame. fold opts.
    now destruct (GameLauncher.launchGame env opts w). }
  destruct Hr as (Hreply & Hlet & Hworld).
  split.
  - subst opts. cbn [Responses.gameOpts LaunchGameOpts.native].
    unfold Responses.isNative. rewrite existsb_exists. split.
    + intros (p & Hin & Hp). apply String.eqb_eq in Hp. now subst p.
    + intros Hin. exists (Responses.gamePlatform game).
      split; [exact Hin | apply String.eqb_refl].
  - split; [exact Hreply|]. split; [exact Hlet|]. split; [exact Hworld|].
    intros error He. split; [exact Hreply|]. now rewrite Hlet, He.
Qed.

Lemma X19_launch_game_handler_witness :
  let r :=
    Responses.onLaunchGame Sample.linux (fun p => p)
      {| Responses.exodosPath := "/eXo";
         Responses.nativePlatforms := ["ScummVM"];
         Responses.commandMappings := Sample.mappings;
         Responses.execMappings := [];
         Responses.openExternal := Sample.openExternalOk |}
      {| Responses.info := Sample.game "doom.exe";
         Responses.gamePlatform := "MS-DOS" |}
      (Some [Sample.addApp "missing/setup.exe" "" true true])
      Sample.world0 in
  Responses.reply r = Fulfilled
  /\ Responses.letGo r = Some (Rejected Sample.ENOENT).
Proof.
  intros r.
  apply (proj2 (proj2 (proj2 (proj2
           (X19_launch_game_handler Sample.linux (fun p => p)
              {| Responses.exodosPath := "/eXo";
                 Responses.nativePlatforms := ["ScummVM"];
                 Responses.commandMappings := Sample.mappings;
                 Responses.execMappings := [];
                 Responses.openExternal := Sample.openExternalOk |}
              {| Responses.info := Sample.game "doom.exe";
                 Responses.gamePlatform := "MS-DOS" |}
              (Some [Sample.addApp "missing/setup.exe" "" true true])
              Sample.world0))))
           Sample.ENOENT).
  reflexivity.
Defined.

Section NotNative.

Context (env : Env).

Lemma resolve_not_native relativePath fpPath rows rows' :
  GameLauncher.resolveApplicationPath env relativePath fpPath rows false
  = GameLauncher.resolveApplicationPath env relativePath fpPath rows' false.
Proof.
  rewrite !resolveApplicationPath_steps. now rewrite !Bool.andb_false_r.
Qed.

Lemma launchAdditionalApplication_not_native fp rows rows' mappings oe a w :
  GameLauncher.launchAdditionalApplication env
    {| LaunchAddAppOpts.fpPath := fp;
       LaunchAddAppOpts.execMappings := rows;
       LaunchAddAppOpts.mappings := mappings;
       LaunchAddAppOpts.openExternal := oe;
       LaunchAddAppOpts.addApp := a;
       LaunchAddAppOpts.native := false |} w
  = GameLauncher.launchAdditionalApplication env
      {| LaunchAddAppOpts.fpPath := fp;
         LaunchAddAppOpts.execMappings := rows';
         LaunchAddAppOpts.mappings := mappings;
         LaunchAddAppOpts.openExternal := oe;
         LaunchAddAppOpts.addApp := a;
         LaunchAddAppOpts.native := false |} w.
Proof.
  unfold GameLauncher.launchAdditionalApplication.
  cbn [LaunchAddAppOpts.fpPath LaunchAddAppOpts.execMappings
       LaunchAddAppOpts.mappings LaunchAddAppOpts.openExternal
       LaunchAddAppOpts.addApp LaunchAddAppOpts.native].
  destruct (GameLauncher.handleSpecialApplicationPath env _ _ _ _ w)
    as [handled w1].
  destruct handled; [reflexivity|]. cbn [negb].
  now rewrite (resolve_not_native _ fp rows rows').
Qed.

Lemma launchGame_not_native fp rows rows' mappings oe game addApps w :
  GameLauncher.launchGame env
    {| LaunchGameOpts.fpPath := fp;
       LaunchGameOpts.execMappings := rows;
       LaunchGameOpts.mappings := mappings;
       LaunchGameOpts.openExternal := oe;
       LaunchGameOpts.game := game;
       LaunchGameOpts.addApps := addApps;
       LaunchGameOpts.native := false |} w
  = GameLauncher.launchGame env
      {| LaunchGameOpts.fpPath := fp;
         LaunchGameOpts.execMappings := rows';
         LaunchGameOpts.mappings := mappings;
         LaunchGameOpts.openExternal := oe;
         LaunchGameOpts.game := game;
         LaunchGameOpts.addApps := addApps;
         LaunchGameOpts.native := false |} w.
Proof.
  set (o := {| LaunchGameOpts.fpPath := fp;
               LaunchGameOpts.execMappings := rows;
               LaunchGameOpts.mappings := mappings;
               LaunchGameOpts.openExternal := oe;
               LaunchGameOpts.game := game;
               LaunchGameOpts.addApps := addApps;
               LaunchGameOpts.native := false |}).
  set (o' := {| LaunchGameOpts.fpPath := fp;
                LaunchGameOpts.execMappings := rows';
                LaunchGameOpts.mappings := mappings;
                LaunchGameOpts.openExternal := oe;
                LaunchGameOpts.game := game;
                LaunchGameOpts.addApps := addApps;
                LaunchGameOpts.native := false |}).
  assert (Hloop : forall l w0,
             GameLauncher.runAutoRunBefore env o l w0
             = GameLauncher.runAutoRunBefore env o' l w0).
  { induction l as [|a l IH]; intros w0; [reflexivity|].
    simpl. destruct (IAdditionalApplicationInfo.autoRunBefore a); [|apply IH].
    unfold GameLauncher.addAppOpts, o, o'.
    cbn [LaunchGameOpts.fpPath LaunchGameOpts.execMappings
         LaunchGameOpts.mappings LaunchGameOpts.openExternal
         LaunchGameOpts.native].
    rewrite (launchAdditionalApplication_not_native fp rows rows').
    destruct (GameLauncher.launchAdditionalApplication env _ w0) as [p w1].
    destruct (IAdditionalApplicationInfo.waitForExit a); [|apply IH].
    destruct p; [apply IH | reflexivity | reflexivity]. }
  assert (Hmain : forall w0,
             GameLauncher.launchMain env o w0
             = GameLauncher.launchMain env o' w0).
  { intros w0. unfold GameLauncher.launchMain, o, o'.
    cbn [LaunchGameOpts.fpPath LaunchGameOpts.execMappings
         LaunchGameOpts.mappings LaunchGameOpts.game LaunchGameOpts.native].
    now rewrite (resolve_not_native _ fp rows rows'). }
  unfold GameLauncher.launchGame.
  change (LaunchGameOpts.game o') with (LaunchGameOpts.game o).
  change (LaunchGameOpts.addApps o') with (LaunchGameOpts.addApps o).
  destruct (IGameInfo.placeholder (LaunchGameOpts.game o)); [reflexivity|].
  destruct (LaunchGameOpts.addApps o) as [l|].
  - rewrite Hloop.
    destruct (GameLauncher.runAutoRunBefore env o' l w) as [[p|] w1];
      [reflexivity | apply Hmain].
  - apply Hmain.
Qed.

End NotNative.

(** X20. Exec mappings matter only for native platforms.  When the game's
    platform is not among the configured native platforms, the
    [LAUNCH_GAME] handler does the same with any two exec-mapping lists,
    for the game and for each of its additional applications alike; and the
    [LAUNCH_ADDAPP] handler called without a game never consults the exec
    mappings at all. *)
Theorem X20_exec_mappings_only_for_native :
  forall (env : Env) (path_resolve : string -> string)
         (ctx : Responses.BackContext) (rows : list ExecMapping.t)
         (w : World),
    (forall game addApps,
        ~ In (Responses.gamePlatform game) (Responses.nativePlatforms ctx) ->
        Responses.onLaunchGame env path_resolve (withExecMappings ctx rows)
          game addApps w
        = Responses.onLaunchGame env path_resolve ctx game addApps w)
    /\ (forall addApp,
          Responses.onLaunchAddApp env path_resolve
            (withExecMappings ctx rows) None addApp w
          = Responses.onLaunchAddApp env path_resolve ctx None addApp w).
Proof.
  intros env path_resolve ctx rows w. split.
  - intros game addApps Hout.
    assert (Hnative : Responses.isNative ctx game = false).
    { unfold Responses.isNative.
      destruct (existsb _ _) eqn:Hex; [|reflexivity].
      apply existsb_exists in Hex as (p & Hin & Hp).
      apply String.eqb_eq in Hp. subst p. contradiction. }
    unfold Responses.onLaunchGame, Responses.gameOpts.
    replace (Responses.isNative (withExecMappings ctx rows) game)
      with false by (symmetry; exact Hnative).
    rewrite Hnative. cbn [withExecMappings Responses.exodosPath
      Responses.commandMappings Responses.execMappings
      Responses.openExternal].
    now rewrite (launchGame_not_native env _ rows
                   (Responses.execMappings ctx)).
  - intros addApp. unfold Responses.onLaunchAddApp.
    cbn [withExecMappings Responses.exodosPath Responses.commandMappings
         Responses.execMappings Responses.openExternal].
    now rewrite (launchAdditionalApplication_not_native env _ rows
                   (Responses.execMappings ctx)).
Qed.

Lemma X20_exec_mappings_only_for_native_witness :
  let ctx :=
    {| Responses.exodosPath := "/eXo";
       Responses.nativePlatforms := ["ScummVM"];
       Responses.commandMappings := Sample.mappings;
       Responses.execMappings := [];
       Responses.openExternal := Sample.openExternalOk |} in
  let game :=
    {| Responses.info := Sample.game "A";
       Responses.gamePlatform := "MS-DOS" |} in
  execCommands
    (events
       (Responses.world
          (Responses.onLaunchGame Sample.linux (fun p => p)
             (withExecMappings ctx [Sample.rowAB]) game None Sample.world0)))
  = ["xdg-open /eXo/A "].
Proof.
  intros ctx game.
  rewrite (proj1 (X20_exec_mappings_only_for_native Sample.linux
                    (fun p => p) ctx [Sample.rowAB] Sample.world0) game None).
  - reflexivity.
  - simpl. intros [H|[]]. discriminate.
Defined.
